(** * input-remapper: the configuration migrations ([inputremapper/migrations.py])

    A shallow embedding of the migration functions and the properties of
    them that the specification states.

    - JSON values are an inductive type; a JSON object is an association
      list in insertion order, because Python dicts keep insertion order and
      [json.dump] writes the entries in that order.
    - A file carries the text on disk and what [json.load] makes of that
      text: a value, or the exception it raises; [json_dumps] is
      [json.dump(..., indent=4)].
    - The collaborators that are imported from other modules (the macro
      parser, the symbol table, the uinput registry, the version parser and
      the [VERSION] constant) are the fields of one record [env]. *)

From Stdlib Require Import List String Ascii ZArith Bool Arith Lia.
From Stdlib Require DecimalString.
Import ListNotations.
Open Scope string_scope.

(** ** Exceptions and results *)

Inductive exn : Type :=
| JSONDecodeError
| AttributeError
| TypeError
| KeyError
| OSError
| InvalidVersion
| MacroError
| LookupFailure
| UnicodeDecodeError
| RecursionError.

Inductive result (A : Type) : Type :=
| OK (a : A)
| Raise (e : exn).
Arguments OK {A} a.
Arguments Raise {A} e.

Definition bind {A B : Type} (r : result A) (k : A -> result B) : result B :=
  match r with
  | OK a => k a
  | Raise e => Raise e
  end.

Notation "x <- r ;; k" := (bind r (fun x => k))
  (at level 61, r at next level, right associativity).

(** ** JSON values *)

#[warnings="-register-all"]
Inductive json : Type :=
| JNull
| JBool (b : bool)
| JNum (z : Z)
| JStr (s : string)
| JArr (items : list json)
| JObj (entries : list (string * json)).

Definition dict : Type := list (string * json).

(** ** Python dict operations on an insertion-ordered association list *)

Module Dict.

Definition keys (d : dict) : list string := map fst d.

Fixpoint get (k : string) (d : dict) : option json :=
  match d with
  | [] => None
  | (k', v) :: d' => if String.eqb k k' then Some v else get k d'
  end.

Definition mem (k : string) (d : dict) : bool :=
  match get k d with Some _ => true | None => false end.

(** [del k d]: the dict without the entry of [k]. *)
Fixpoint del (k : string) (d : dict) : dict :=
  match d with
  | [] => []
  | (k', v) :: d' => if String.eqb k k' then d' else (k', v) :: del k d'
  end.

(** [d.pop(k)]: the value and the remaining dict; [KeyError] when absent. *)
Definition pop (k : string) (d : dict) : result (json * dict) :=
  match get k d with
  | Some v => OK (v, del k d)
  | None => Raise KeyError
  end.

(** [d[k] = v]: the entry keeps its place when [k] is present and is
    appended otherwise. *)
Fixpoint set (k : string) (v : json) (d : dict) : dict :=
  match d with
  | [] => [(k, v)]
  | (k', v') :: d' =>
      if String.eqb k k' then (k, v) :: d' else (k', v') :: set k v d'
  end.

(** What every Python dict satisfies: no key occurs twice. *)
Definition wf (d : dict) : Prop := NoDup (keys d).

End Dict.

(** ** Mapping keys: [_mapping_keys], line 116-120 *)

(** [key.count(",")] *)
Fixpoint count_commas (s : string) : nat :=
  match s with
  | EmptyString => 0
  | String c s' => (if Ascii.eqb c "," then 1 else 0) + count_commas s'
  end.

(** [f"{key},1"] *)
Definition with_value (key : string) : string := key ++ ",1".

(** One turn of the loop [for key in mapping.keys()], on the dict
    [preset_dict["mapping"]] that the loop mutates. *)
Definition mapping_keys_step (d : result dict) (key : string) : result dict :=
  d <- d ;;
  if Nat.eqb (count_commas key) 1 then
    p <- Dict.pop key d ;;
    OK (Dict.set (with_value key) (fst p) (snd p))
  else OK d.

(** The loop: the keys come from the deep copy taken before the loop. *)
Definition mapping_keys_loop (d : dict) : result dict :=
  fold_left mapping_keys_step (Dict.keys d) (OK d).

(** The key a mapping key is normalized to. *)
Definition normalize_key (key : string) : string :=
  if Nat.eqb (count_commas key) 1 then with_value key else key.

(** ** [json.dump(obj, file, indent=4)]

    Strings are sequences of code points below 256; [ensure_ascii] escapes
    everything outside the printable ASCII range. *)

Definition LF : string := String (ascii_of_nat 10) EmptyString.
Definition dquote : ascii := ascii_of_nat 34.
Definition backslash : ascii := ascii_of_nat 92.

Definition hex_digit (n : nat) : ascii :=
  nth n ["0"; "1"; "2"; "3"; "4"; "5"; "6"; "7"; "8"; "9";
         "a"; "b"; "c"; "d"; "e"; "f"]%char "0"%char.

Definition escape_char (c : ascii) : string :=
  let n := nat_of_ascii c in
  let esc (x : string) := String backslash x in
  if Nat.eqb n 34 then esc (String dquote EmptyString)
  else if Nat.eqb n 92 then esc (String backslash EmptyString)
  else if Nat.eqb n 10 then esc "n"
  else if Nat.eqb n 13 then esc "r"
  else if Nat.eqb n 9 then esc "t"
  else if Nat.eqb n 8 then esc "b"
  else if Nat.eqb n 12 then esc "f"
  else if Nat.ltb n 32 || Nat.ltb 126 n then
    esc ("u00" ++ String (hex_digit (n / 16))
                         (String (hex_digit (n mod 16)) EmptyString))
  else String c EmptyString.

Fixpoint escape (s : string) : string :=
  match s with
  | EmptyString => EmptyString
  | String c s' => escape_char c ++ escape s'
  end.

Definition quote (s : string) : string :=
  String dquote (escape s ++ String dquote EmptyString).

Fixpoint spaces (n : nat) : string :=
  match n with
  | O => EmptyString
  | S n' => String " " (spaces n')
  end.

Definition newline_indent (level : nat) : string := LF ++ spaces (4 * level).

Definition decimal (z : Z) : string :=
  DecimalString.NilZero.string_of_int (Z.to_int z).

Fixpoint json_dumps_at (level : nat) (j : json) : string :=
  match j with
  | JNull => "null"
  | JBool true => "true"
  | JBool false => "false"
  | JNum z => decimal z
  | JStr s => quote s
  | JArr [] => "[]"
  | JArr items =>
      "[" ++ newline_indent (S level)
          ++ String.concat ("," ++ newline_indent (S level))
               (map (json_dumps_at (S level)) items)
          ++ newline_indent level ++ "]"
  | JObj [] => "{}"
  | JObj entries =>
      "{" ++ newline_indent (S level)
          ++ String.concat ("," ++ newline_indent (S level))
               (map (fun kv => quote (fst kv) ++ ": "
                               ++ json_dumps_at (S level) (snd kv)) entries)
          ++ newline_indent level ++ "}"
  end.

Definition json_dumps (j : json) : string := json_dumps_at 0 j.

(** ** Files, directories and the two configuration roots *)

Record file : Type := mkfile {
  text : string;          (* the bytes on disk *)
  parsed : result json    (* [json.load] of them: a value, or the exception
                             it raises ([JSONDecodeError] on text that is no
                             JSON, [UnicodeDecodeError] on bytes that are no
                             UTF-8, [RecursionError] on nesting too deep) *)
}.

#[warnings="-register-all"]
Inductive node : Type :=
| File (f : file)
| Dir (entries : list (string * node)).

(** [json.dump(j, file, indent=4)], followed by [file.write("\n")] when
    [trailing_newline]. *)
Definition write_json (j : json) (trailing_newline : bool) : file :=
  {| text := json_dumps j ++ (if trailing_newline then LF else EmptyString);
     parsed := OK j |}.

Definition is_dir (n : node) : bool :=
  match n with Dir _ => true | File _ => false end.

Module Listing.

Definition t : Type := list (string * node).

Fixpoint lookup (name : string) (es : t) : option node :=
  match es with
  | [] => None
  | (name', n) :: es' => if String.eqb name name' then Some n else lookup name es'
  end.

Definition mem (name : string) (es : t) : bool :=
  match lookup name es with Some _ => true | None => false end.

(** [os.rename] of an entry inside one directory. *)
Fixpoint rename (old new : string) (es : t) : t :=
  match es with
  | [] => []
  | (name, n) :: es' =>
      if String.eqb old name then (new, n) :: es' else (name, n) :: rename old new es'
  end.

(** Replace the node stored under [name]. *)
Fixpoint update (name : string) (n : node) (es : t) : t :=
  match es with
  | [] => []
  | (name', n') :: es' =>
      if String.eqb name name' then (name, n) :: es' else (name', n') :: update name n es'
  end.

Definition names (es : t) : list string := map fst es.

Definition dirs (es : t) : t := filter (fun e => is_dir (snd e)) es.
Definition others (es : t) : t := filter (fun e => negb (is_dir (snd e))) es.

End Listing.

(** The part of the disk that the migrations touch: [CONFIG_PATH] and
    [HOME/.config/key-mapper]. [None]: the path does not exist. *)
Record fs : Type := mkfs {
  root : option node;
  legacy : option node
}.

(** A child of [CONFIG_PATH]: [os.path.join(CONFIG_PATH, name)]. *)
Definition child (name : string) (s : fs) : option node :=
  match root s with
  | Some (Dir es) => Listing.lookup name es
  | _ => None
  end.

Definition exists_child (name : string) (s : fs) : bool :=
  match child name s with Some _ => true | None => false end.

Definition set_child (name : string) (n : node) (s : fs) : fs :=
  match root s with
  | Some (Dir es) => {| root := Some (Dir (Listing.update name n es)); legacy := legacy s |}
  | _ => s
  end.

(** What a step leaves behind: the disk, and the exception that ended it. *)
Definition outcome : Type := (fs * option exn)%type.

Definition done (s : fs) : outcome := (s, None).
Definition abort (e : exn) (s : fs) : outcome := (s, Some e).

Definition and_then (first second : fs -> outcome) (s : fs) : outcome :=
  match first s with
  | (s1, None) => second s1
  | (s1, Some e) => (s1, Some e)
  end.

(** ** The collaborators imported from other modules *)

(** [get_capabilities()]: the codes per event type. A key code is
    [option Z] because [system_mapping.get] may hand back Python's [None],
    which then is the one member of the required set. *)
Record capabilities : Type := mkcaps {
  ev_key : list (option Z);
  ev_rel : list Z
}.

Record env : Type := mkenv {
  (* pkg_resources.parse_version and the order on its results *)
  version : Type;
  version_lt : version -> version -> bool;
  parse_version : string -> result version;
  (* inputremapper.logger.VERSION *)
  VERSION : string;
  (* inputremapper.injection.macros.parse *)
  is_this_a_macro : json -> bool;
  parse : json -> result capabilities;
  (* inputremapper.system_mapping: system_mapping.get *)
  system_mapping_get : json -> result (option Z);
  (* global_uinputs.devices after global_uinputs.prepare(): name and
     capabilities()[EV_KEY], in registration order *)
  devices : list (string * list Z);
  (* str(x) of a value that is not a string, as an f-string formats it *)
  py_str : json -> string
}.

(** The name of a preset file: [preset.suffix == ".json"]. pathlib's suffix
    starts at the last dot, which must be neither the first nor the last
    character of the name. *)
Definition has_json_suffix (name : string) : bool :=
  let n := String.length name in
  Nat.ltb 5 n && String.eqb (substring (n - 5) 5 name) ".json".

(** [set.issubset]: every required code is among the codes of the device. *)
Definition issubset (required : list (option Z)) (have : list Z) : bool :=
  forallb (fun c => match c with
                    | Some z => existsb (Z.eqb z) have
                    | None => false
                    end) required.

(** The loop over [global_uinputs.devices.items()] of [_find_target]. *)
Fixpoint first_capable (required : list (option Z))
    (devs : list (string * list Z)) : option string :=
  match devs with
  | [] => None
  | (name, keys) :: devs' =>
      if issubset required keys then Some name else first_capable required devs'
  end.

Definition broken_note : string :=
  LF ++ "# Broken mapping:" ++ LF
     ++ "# No target can handle all specified keycodes".

(** Walk over the files that [all_presets()] lists in one folder, in
    listing order, and stop at the first exception. [body] reads and
    rewrites the one file it is given. *)
Fixpoint for_each_preset (body : node -> result node)
    (es : Listing.t) : Listing.t * option exn :=
  match es with
  | [] => ([], None)
  | (name, n) :: es' =>
      if has_json_suffix name then
        match body n with
        | OK n' =>
            let (es'', r) := for_each_preset body es' in ((name, n') :: es'', r)
        | Raise e => ((name, n) :: es', Some e)
        end
      else
        let (es'', r) := for_each_preset body es' in ((name, n) :: es'', r)
  end.

(** Walk over the folders of the presets directory ([all_presets]: entries
    that are no directory are passed over). *)
Fixpoint for_each_folder (body : node -> result node)
    (gs : Listing.t) : Listing.t * option exn :=
  match gs with
  | [] => ([], None)
  | (g, Dir es) :: gs' =>
      match for_each_preset body es with
      | (es', None) =>
          let (gs'', r) := for_each_folder body gs' in ((g, Dir es') :: gs'', r)
      | (es', Some e) => ((g, Dir es') :: gs', Some e)
      end
  | (g, File f) :: gs' =>
      let (gs'', r) := for_each_folder body gs' in ((g, File f) :: gs'', r)
  end.

(** Modelled from the spec: [get_preset_path()] of [inputremapper.paths],
    which is not among the sources, called without arguments is the
    canonical presets subdirectory: [CONFIG_PATH/presets], the folder that
    [_preset_path] also builds as [new_preset_folder]. Here: its name under
    [CONFIG_PATH]. *)
Definition get_preset_path : string := "presets".

(** [for preset in all_presets(): body], guarded by
    [os.path.exists(get_preset_path())]. [iterdir] lists in no promised
    order; the walk takes the order of the listing. *)
Definition for_all_presets (body : node -> result node) (s : fs) : outcome :=
  match child get_preset_path s with
  | None => done s
  | Some (File _) => abort OSError s
  | Some (Dir gs) =>
      let (gs', r) := for_each_folder body gs in
      (set_child get_preset_path (Dir gs') s, r)
  end.

(** The body of the loop of [_mapping_keys] on one preset file. *)
Definition mapping_keys_preset (n : node) : result node :=
  match n with
  | Dir _ => Raise OSError
  | File f =>
      match parsed f with
      | Raise JSONDecodeError => OK n
      | Raise e => Raise e
      | OK (JObj preset_dict) =>
          preset_dict' <-
            match Dict.get "mapping" preset_dict with
            | None => OK preset_dict
            | Some (JObj mapping) =>
                mapping' <- mapping_keys_loop mapping ;;
                OK (Dict.set "mapping" (JObj mapping') preset_dict)
            | Some _ => Raise AttributeError
            end ;;
          OK (File (write_json (JObj preset_dict') true))
      | OK _ => Raise AttributeError
      end
  end.

Definition _mapping_keys : fs -> outcome := for_all_presets mapping_keys_preset.

(** [_config_suffix] *)
Definition _config_suffix (s : fs) : outcome :=
  match root s with
  | Some (Dir es) =>
      if Listing.mem "config" es && negb (Listing.mem "config.json" es)
      then done {| root := Some (Dir (Listing.rename "config" "config.json" es));
                   legacy := legacy s |}
      else done s
  | _ => done s
  end.

(** [_preset_path]: [path.replace(CONFIG_PATH, new_preset_folder)] turns
    [CONFIG_PATH/group] into [CONFIG_PATH/presets/group]; [os.listdir] of a
    config root that is a regular file raises.
    Modelled from the spec: [mkdir] of [inputremapper.paths], which is not
    among the sources, creates the (newly created, so empty) presets
    subdirectory. *)
Definition _preset_path (s : fs) : outcome :=
  match root s with
  | None => done s
  | Some (File _) => abort OSError s
  | Some (Dir es) =>
      if Listing.mem get_preset_path es then done s
      else done {| root := Some (Dir (Listing.others es
                                       ++ [("presets", Dir (Listing.dirs es))]));
                   legacy := legacy s |}
  end.

(** [_rename_config] *)
Definition _rename_config (s : fs) : outcome :=
  match root s, legacy s with
  | None, Some old => done {| root := Some old; legacy := None |}
  | _, _ => done s
  end.

Section Migrations.

Variable E : env.

(** [config_version] *)
Definition config_version (s : fs) : result (version E) :=
  match child "config.json" s with
  | None => parse_version E "0.0.0"
  | Some (Dir _) => Raise OSError
  | Some (File f) =>
      match parsed f with
      | Raise e => Raise e
      | OK (JObj config) =>
          match Dict.get "version" config with
          | Some (JStr v) => parse_version E v
          | Some _ => Raise TypeError
          | None => parse_version E "0.0.0"
          end
      | OK _ => Raise AttributeError
      end
  end.

(** [_update_version] *)
Definition _update_version (s : fs) : outcome :=
  match child "config.json" s with
  | None => done s
  | Some (Dir _) => abort OSError s
  | Some (File f) =>
      match parsed f with
      | Raise e => abort e s
      | OK (JObj config) =>
          done (set_child "config.json"
                  (File (write_json
                           (JObj (Dict.set "version" (JStr (VERSION E)) config))
                           false)) s)
      | OK _ => abort TypeError s
      end
  end.

(** The capabilities that [_find_target] collects for a symbol. *)
Definition required_capabilities (symbol : json) : result capabilities :=
  if is_this_a_macro E symbol then parse E symbol
  else
    code <- system_mapping_get E symbol ;;
    OK {| ev_key := [code]; ev_rel := [] |}.

(** [_find_target]; [None] is Python's [None]. *)
Definition _find_target (symbol : json) : result (option string) :=
  caps <- required_capabilities symbol ;;
  if Nat.ltb 0 (List.length (ev_rel caps)) then OK (Some "mouse")
  else OK (first_capable (ev_key caps) (devices E)).

(** [f"{symbol}..."] *)
Definition format_symbol (symbol : json) : string :=
  match symbol with
  | JStr s => s
  | _ => py_str E symbol
  end.

(** The value that [_add_target] stores for a bare symbol. *)
Definition with_target (symbol : json) : result json :=
  target <- _find_target symbol ;;
  match target with
  | Some name => OK (JArr [symbol; JStr name])
  | None => OK (JArr [JStr (format_symbol symbol ++ broken_note); JStr "keyboard"])
  end.

(** One turn of [for key, symbol in preset_dict["mapping"].copy().items()]. *)
Definition add_target_step (d : result dict) (kv : string * json) : result dict :=
  d <- d ;;
  match snd kv with
  | JArr _ => OK d
  | symbol =>
      v <- with_target symbol ;;
      OK (Dict.set (fst kv) v d)
  end.

Definition add_target_loop (d : dict) : result dict :=
  fold_left add_target_step d (OK d).

(** The body of the loop of [_add_target] on one preset file. *)
Definition add_target_preset (n : node) : result node :=
  match n with
  | Dir _ => Raise OSError
  | File f =>
      match parsed f with
      | Raise JSONDecodeError => OK n
      | Raise e => Raise e
      | OK (JObj preset_dict) =>
          match Dict.get "mapping" preset_dict with
          | None => OK n
          | Some (JObj mapping) =>
              mapping' <- add_target_loop mapping ;;
              OK (File (write_json
                          (JObj (Dict.set "mapping" (JObj mapping') preset_dict))
                          true))
          | Some _ => Raise AttributeError
          end
      | OK _ => Raise AttributeError
      end
  end.

Definition _add_target : fs -> outcome := for_all_presets add_target_preset.

(** [if v < pkg_resources.parse_version(threshold): step()] *)
Definition gate (v : version E) (threshold : string)
    (step : fs -> outcome) (s : fs) : outcome :=
  match parse_version E threshold with
  | Raise e => abort e s
  | OK t => if version_lt E v t then step s else done s
  end.

(** [migrate] *)
Definition migrate (s : fs) : outcome :=
  match config_version s with
  | Raise e => abort e s
  | OK v =>
      and_then (gate v "0.4.0" (and_then _config_suffix _preset_path))
     (and_then (gate v "1.2.2" _mapping_keys)
     (and_then (gate v "1.3.0" _rename_config)
     (and_then (gate v "1.4.0" _add_target)
               (gate v (VERSION E) _update_version)))) s
  end.

End Migrations.

(** [isinstance(symbol, list)] *)
Definition is_list (j : json) : bool :=
  match j with JArr _ => true | _ => false end.

(** ** A sample environment, to run the model on concrete inputs *)

Module Sample.

(** Versions as pkg_resources orders plain release numbers: the numbers
    between the dots, compared from the left, missing ones being zero. *)
Definition release : Type := list nat.

Definition digit (c : ascii) : option nat :=
  let n := nat_of_ascii c in
  if Nat.leb 48 n && Nat.leb n 57 then Some (n - 48) else None.

Fixpoint parse_release (s : string) (cur : option nat) : option release :=
  match s with
  | EmptyString =>
      match cur with Some n => Some [n] | None => None end
  | String c s' =>
      if Ascii.eqb c "." then
        match cur with
        | Some n => option_map (cons n) (parse_release s' None)
        | None => None
        end
      else
        match digit c with
        | Some d =>
            parse_release s'
              (Some (10 * match cur with Some n => n | None => 0 end + d))
        | None => None
        end
  end.

Definition release_of_string (s : string) : result release :=
  match parse_release s None with
  | Some v => OK v
  | None => Raise InvalidVersion
  end.

Definition nonzero (v : release) : bool :=
  existsb (fun y => negb (Nat.eqb y 0)) v.

Fixpoint release_lt (a b : release) : bool :=
  match a, b with
  | [], _ => nonzero b
  | _ :: _, [] => false
  | x :: a', y :: b' =>
      if Nat.ltb x y then true
      else if Nat.ltb y x then false
      else release_lt a' b'
  end.

Fixpoint has_char (c : ascii) (s : string) : bool :=
  match s with
  | EmptyString => false
  | String c' s' => Ascii.eqb c c' || has_char c s'
  end.

Definition macro_like (symbol : json) : bool :=
  match symbol with
  | JStr s => has_char "(" s && has_char ")" s
  | _ => false
  end.

(** A macro parser that knows two macros and raises on the rest. *)
Definition parse_macro (symbol : json) : result capabilities :=
  match symbol with
  | JStr s =>
      if String.eqb s "k(a)" then OK {| ev_key := [Some 30%Z]; ev_rel := [] |}
      else if String.eqb s "mouse(up, 1)"
           then OK {| ev_key := []; ev_rel := [0%Z; 1%Z] |}
      else Raise MacroError
  | _ => Raise MacroError
  end.

Definition lookup_symbol (symbol : json) : result (option Z) :=
  match symbol with
  | JStr s =>
      if String.eqb s "a" then OK (Some 30%Z)
      else if String.eqb s "b" then OK (Some 48%Z)
      else if String.eqb s "BTN_A" then OK (Some 304%Z)
      else if String.eqb s "BTN_LEFT" then OK (Some 272%Z)
      else OK None
  | _ => OK None
  end.

Definition uinputs : list (string * list Z) :=
  [("gamepad", [304%Z; 305%Z]);
   ("keyboard", [30%Z; 48%Z; 272%Z]);
   ("mouse", [272%Z; 273%Z])].

Definition e : env :=
  {| version := release;
     version_lt := release_lt;
     parse_version := release_of_string;
     VERSION := "1.4.0";
     is_this_a_macro := macro_like;
     parse := parse_macro;
     system_mapping_get := lookup_symbol;
     devices := uinputs;
     py_str := json_dumps |}.

End Sample.

(** The last character of a text. *)
Fixpoint last_char (s : string) : option ascii :=
  match s with
  | EmptyString => None
  | String c EmptyString => Some c
  | String _ s' => last_char s'
  end.

(** ** Sample disks *)

(** A config file that is cut off in the middle. *)
Definition truncated_config : fs :=
  {| root := Some (Dir [("config.json", File {| text := "{"; parsed := Raise JSONDecodeError |})]);
     legacy := None |}.

(** A config file of release 1.2.0 with one more setting. *)
Definition old_config : fs :=
  {| root := Some (Dir [("config.json",
       File (write_json (JObj [("version", JStr "1.2.0");
                               ("autoload", JObj [])]) true))]);
     legacy := None |}.

(** A presets directory with one file that is no JSON and one preset of
    the old key format. *)
Definition legacy_preset : node :=
  File (write_json (JObj [("mapping", JObj [("1,5", JStr "a")])]) true).

Definition with_corrupt_preset : fs :=
  {| root := Some (Dir [("presets",
       Dir [("Foo Device",
             Dir [("broken.json", File {| text := "{"; parsed := Raise JSONDecodeError |});
                  ("good.json", legacy_preset)])])]);
     legacy := None |}.



(** A disk of release 1.3.0 with a preset that holds a macro with a missing
    bracket, and a second preset. *)
Definition malformed_macro_disk : fs :=
  {| root := Some (Dir [
       ("config.json", File (write_json (JObj [("version", JStr "1.3.0")]) true));
       ("presets",
        Dir [("Foo Device",
              Dir [("a.json",
                    File (write_json
                            (JObj [("mapping",
                                    JObj [("1,30,1", JStr "r(2, k(a)");
                                          ("1,31,1", JStr "b")])]) true));
                   ("b.json",
                    File (write_json
                            (JObj [("mapping", JObj [("1,32,1", JStr "a")])])
                            true))])])]);
     legacy := None |}.

(** No [CONFIG_PATH] yet, and a key-mapper directory in the layout of the
    releases before 0.4.0. *)
Definition legacy_only : fs :=
  {| root := None;
     legacy := Some (Dir [
       ("config", File (write_json (JObj [("autoload", JObj [])]) true));
       ("Foo Device", Dir [("p.json", legacy_preset)])]) |}.

(** The layout of the releases before 0.4.0 in [CONFIG_PATH]. *)
Definition flat_layout : fs :=
  {| root := Some (Dir [
       ("config", File (write_json (JObj [("autoload", JObj [])]) true));
       ("Foo Device", Dir [("p.json", legacy_preset)])]);
     legacy := None |}.

(** [all_presets]: the presets of all groups, as (folder, file name) under
    the presets directory, in listing order. [iterdir] of a path that is
    missing or is no directory raises. *)
Definition presets_of_folder (folder : string) (es : Listing.t) : list (string * string) :=
  map (fun e => (folder, fst e)) (filter (fun e => has_json_suffix (fst e)) es).

Definition all_presets_in (gs : Listing.t) : list (string * string) :=
  flat_map (fun g => match snd g with
                     | Dir es => presets_of_folder (fst g) es
                     | File _ => []
                     end) gs.

Definition all_presets (s : fs) : result (list (string * string)) :=
  match child get_preset_path s with
  | Some (Dir gs) => OK (all_presets_in gs)
  | _ => Raise OSError
  end.

(** A step that, run on a disk that has [CONFIG_PATH], leaves the
    key-mapper directory as it is and [CONFIG_PATH] in existence. *)
Definition keeps_legacy (step : fs -> outcome) : Prop :=
  forall s s' r, root s <> None -> step s = (s', r) ->
                 legacy s' = legacy s /\ root s' <> None.

(** A preset whose mapping, if it has one that is an object, has no
    repeated key: what [json.load] gives for every file, a Python dict
    holding each key once. *)
Definition wf_preset (n : node) : Prop :=
  match n with
  | File f =>
      match parsed f with
      | OK (JObj preset_dict) =>
          match Dict.get "mapping" preset_dict with
          | Some (JObj mapping) => Dict.wf mapping
          | _ => True
          end
      | _ => True
      end
  | Dir _ => True
  end.

(** * Properties *)

(** ** Strings *)

Lemma length_append (a b : string) :
  String.length (a ++ b) = String.length a + String.length b.
Proof. induction a as [|c a IH]; simpl; [reflexivity | now rewrite IH]. Qed.

Lemma append_inv_tail (s a b : string) : a ++ s = b ++ s -> a = b.
Proof.
  revert b; induction a as [|c a IH]; intros [|c' b] H; simpl in H.
  - reflexivity.
  - apply (f_equal String.length) in H; simpl in H.
    rewrite length_append in H; lia.
  - apply (f_equal String.length) in H; simpl in H.
    rewrite length_append in H; lia.
  - injection H as -> H. now rewrite (IH _ H).
Qed.

Lemma count_commas_app (a b : string) :
  count_commas (a ++ b) = count_commas a + count_commas b.
Proof. induction a as [|c a IH]; simpl; [reflexivity | rewrite IH; lia]. Qed.

Lemma count_commas_with_value (k : string) :
  count_commas (with_value k) = S (count_commas k).
Proof. unfold with_value. rewrite count_commas_app. simpl. lia. Qed.

Lemma with_value_inj (a b : string) : with_value a = with_value b -> a = b.
Proof. apply append_inv_tail. Qed.

(** ** Dict lookups after [del] and [set] *)

Module DictFacts.
Import Dict.

Lemma get_None_keys (k : string) (d : dict) :
  get k d = None <-> ~ In k (keys d).
Proof.
  induction d as [|[k' v] d IH]; simpl.
  - tauto.
  - destruct (String.eqb_spec k k') as [->|Hne].
    + split; [discriminate | intros H; exfalso; apply H; now left].
    + rewrite IH. split.
      * intros H [Heq|Hin]; [now apply Hne | now apply H].
      * intros H Hin. apply H. now right.
Qed.

Lemma get_Some_keys (k : string) (v : json) (d : dict) :
  get k d = Some v -> In k (keys d).
Proof.
  intros H. destruct (in_dec string_dec k (keys d)) as [Hin|Hout]; [easy|].
  apply get_None_keys in Hout. congruence.
Qed.

Lemma keys_get (k : string) (d : dict) :
  In k (keys d) -> exists v, get k d = Some v.
Proof.
  intros Hin. destruct (get k d) as [v|] eqn:Hg; [now exists v|].
  apply get_None_keys in Hg. contradiction.
Qed.

Lemma get_set (k k' : string) (v : json) (d : dict) :
  get k (set k' v d) = if String.eqb k k' then Some v else get k d.
Proof.
  induction d as [|[k0 v0] d IH]; simpl.
  - reflexivity.
  - destruct (String.eqb_spec k' k0) as [->|Hne]; simpl.
    + destruct (String.eqb k k0); reflexivity.
    + rewrite IH. destruct (String.eqb_spec k k0) as [->|Hne'].
      * destruct (String.eqb_spec k0 k'); [congruence | reflexivity].
      * reflexivity.
Qed.

Lemma keys_del_subset (k k' : string) (d : dict) :
  In k (keys (del k' d)) -> In k (keys d).
Proof.
  induction d as [|[k0 v0] d IH]; simpl; [easy|].
  destruct (String.eqb k' k0); simpl; intuition.
Qed.

Lemma wf_del (k : string) (d : dict) : wf d -> wf (del k d).
Proof.
  unfold wf. induction d as [|[k0 v0] d IH]; simpl; intros H; [constructor|].
  inversion H as [|? ? Hnotin Hnd]; subst.
  destruct (String.eqb k k0); [assumption|].
  simpl. constructor; [|now apply IH].
  intros Hin. apply Hnotin. now apply keys_del_subset in Hin.
Qed.

Lemma get_del (k k' : string) (d : dict) :
  wf d -> get k (del k' d) = if String.eqb k k' then None else get k d.
Proof.
  unfold wf. induction d as [|[k0 v0] d IH]; simpl; intros H.
  - now destruct (String.eqb k k').
  - inversion H as [|? ? Hnotin Hnd]; subst.
    destruct (String.eqb_spec k' k0) as [->|Hne]; simpl.
    + destruct (String.eqb_spec k k0) as [->|Hne']; [|reflexivity].
      now apply get_None_keys.
    + rewrite (IH Hnd). destruct (String.eqb_spec k k0) as [->|Hne'].
      * destruct (String.eqb_spec k0 k'); [congruence | reflexivity].
      * reflexivity.
Qed.

Lemma keys_set (k k' : string) (v : json) (d : dict) :
  In k (keys (set k' v d)) <-> k = k' \/ In k (keys d).
Proof.
  induction d as [|[k0 v0] d IH]; simpl.
  - intuition.
  - destruct (String.eqb_spec k' k0) as [->|Hne]; simpl.
    + intuition.
    + rewrite IH. intuition.
Qed.

Lemma wf_set (k : string) (v : json) (d : dict) : wf d -> wf (set k v d).
Proof.
  unfold wf. induction d as [|[k0 v0] d IH]; simpl; intros H.
  - constructor; [easy | constructor].
  - inversion H as [|? ? Hnotin Hnd]; subst.
    destruct (String.eqb_spec k k0) as [->|Hne]; simpl.
    + now constructor.
    + constructor; [|now apply IH].
      intros Hin. apply keys_set in Hin. destruct Hin; [congruence | easy].
Qed.

End DictFacts.

(** ** The loop of [_mapping_keys] *)

Lemma mapping_keys_step_Raise (ks : list string) (e : exn) :
  fold_left mapping_keys_step ks (Raise e) = Raise e.
Proof. induction ks as [|k ks IH]; simpl; [reflexivity | exact IH]. Qed.

(** What the loop has done once it has gone through the keys [ks], started
    on the dict [cur]. *)
Lemma mapping_keys_fold (ks : list string) :
  forall cur : dict,
    NoDup ks -> Dict.wf cur ->
    (forall k, In k ks -> count_commas k = 1 -> In k (Dict.keys cur)) ->
    exists d',
      fold_left mapping_keys_step ks (OK cur) = OK d' /\ Dict.wf d' /\
      (forall k v, In k ks -> count_commas k = 1 -> Dict.get k cur = Some v ->
                   Dict.get (with_value k) d' = Some v) /\
      (forall k, count_commas k = 1 -> In k ks \/ Dict.get k cur = None ->
                 Dict.get k d' = None) /\
      (forall k, count_commas k <> 1 ->
                 (forall k0, In k0 ks -> count_commas k0 = 1 -> with_value k0 <> k) ->
                 Dict.get k d' = Dict.get k cur) /\
      (forall k, count_commas k <> 1 -> Dict.get k cur <> None ->
                 Dict.get k d' <> None).
Proof.
  induction ks as [|k0 ks IH]; intros cur Hnd Hwf Hin.
  - exists cur. simpl. repeat split; auto.
    + intros k v [].
    + intros k _ [[]|H]; exact H.
  - inversion Hnd as [|? ? Hk0 Hnd']; subst. simpl.
    destruct (Nat.eqb_spec (count_commas k0) 1) as [Hc|Hc].
    + (* a legacy key: popped and stored again *)
      destruct (DictFacts.keys_get k0 cur (Hin k0 (or_introl eq_refl) Hc)) as [v0 Hv0].
      unfold Dict.pop. rewrite Hv0. simpl.
      set (cur1 := Dict.set (with_value k0) v0 (Dict.del k0 cur)).
      assert (Hwf1 : Dict.wf cur1)
        by (apply DictFacts.wf_set, DictFacts.wf_del, Hwf).
      assert (Hget1 : forall k, Dict.get k cur1 =
                 if String.eqb k (with_value k0) then Some v0
                 else if String.eqb k k0 then None else Dict.get k cur).
      { intros k. unfold cur1. rewrite DictFacts.get_set, DictFacts.get_del by exact Hwf.
        reflexivity. }
      assert (Hone : forall k, count_commas k = 1 ->
                 String.eqb k (with_value k0) = false).
      { intros k Hk. apply String.eqb_neq. intros ->.
        rewrite count_commas_with_value in Hk. lia. }
      destruct (IH cur1 Hnd' Hwf1) as (d' & Hrun & Hwf' & P1 & P3 & P2 & P4).
      { intros k Hk Hck.
        destruct (DictFacts.keys_get k cur (Hin k (or_intror Hk) Hck)) as [v Hv].
        apply DictFacts.get_Some_keys with (v := v).
        rewrite Hget1, (Hone k Hck).
        destruct (String.eqb_spec k k0) as [->|_]; [contradiction | exact Hv]. }
      exists d'. split; [exact Hrun|]. split; [exact Hwf'|].
      split; [|split; [|split]].
      * intros k v [<-|Hk] Hck Hv.
        -- rewrite P2.
           ++ rewrite Hget1, String.eqb_refl. congruence.
           ++ rewrite count_commas_with_value. lia.
           ++ intros k1 Hk1 _ Heq. apply with_value_inj in Heq. congruence.
        -- apply P1; [exact Hk | exact Hck|].
           rewrite Hget1, (Hone k Hck).
           destruct (String.eqb_spec k k0) as [->|_]; [contradiction | exact Hv].
      * intros k Hck Hor. apply P3; [exact Hck|].
        destruct (String.eqb_spec k k0) as [Heq|Hne].
        -- right. rewrite Hget1, (Hone k Hck). subst k. now rewrite String.eqb_refl.
        -- destruct Hor as [[Heq|Hk]|Hnone]; [congruence | now left |].
           right. rewrite Hget1, (Hone k Hck).
           destruct (String.eqb_spec k k0); [reflexivity | exact Hnone].
      * intros k Hck Hfree. rewrite P2; [|exact Hck|].
        -- rewrite Hget1.
           destruct (String.eqb_spec k (with_value k0)) as [->|_].
           ++ exfalso. now apply (Hfree k0 (or_introl eq_refl) Hc).
           ++ destruct (String.eqb_spec k k0) as [->|_]; [congruence | reflexivity].
        -- intros k1 Hk1. apply Hfree. now right.
      * intros k Hck Hsome. apply P4; [exact Hck|].
        rewrite Hget1.
        destruct (String.eqb k (with_value k0)); [discriminate|].
        destruct (String.eqb_spec k k0) as [->|_]; [congruence | exact Hsome].
    + (* any other key: this turn does nothing *)
      destruct (IH cur Hnd' Hwf) as (d' & Hrun & Hwf' & P1 & P3 & P2 & P4).
      { intros k Hk. apply Hin. now right. }
      exists d'. split; [exact Hrun|]. split; [exact Hwf'|].
      split; [|split; [|split]].
      * intros k v [<-|Hk] Hck Hv; [congruence | now apply P1].
      * intros k Hck [[<-|Hk]|Hnone]; [congruence | apply P3; auto | apply P3; auto].
      * intros k Hck Hfree. apply P2; [exact Hck|].
        intros k1 Hk1. apply Hfree. now right.
      * exact P4.
Qed.

(** A dict without legacy keys passes through the loop as it is. *)
Lemma mapping_keys_fold_fixed (ks : list string) (cur : dict) :
  (forall k, In k ks -> count_commas k <> 1) ->
  fold_left mapping_keys_step ks (OK cur) = OK cur.
Proof.
  induction ks as [|k ks IH]; intros H; simpl; [reflexivity|].
  destruct (Nat.eqb_spec (count_commas k) 1) as [Hc|_].
  - exfalso. now apply (H k (or_introl eq_refl)).
  - apply IH. intros k' Hk'. apply H. now right.
Qed.

Ltac solve_wf :=
  unfold Dict.wf; simpl;
  repeat (constructor; [simpl; intuition discriminate|]); constructor.

(** C3. Key normalization: on every mapping (a dict, so without repeated
    keys) the loop of [_mapping_keys] ends without an exception; a key with
    exactly one separator is replaced by the key with [",1"] appended, which
    holds its value, and the old key is gone; a key in 3-component form stays
    a key as it is, and keeps its value unless its legacy form is in the
    mapping too; and running the loop on the result changes nothing. *)
Theorem mapping_keys_normalizes (d : dict) :
  Dict.wf d ->
  exists d',
    mapping_keys_loop d = OK d' /\
    (forall k v, count_commas k = 1 -> Dict.get k d = Some v ->
       normalize_key k = with_value k /\
       Dict.get (with_value k) d' = Some v /\ Dict.get k d' = None) /\
    (forall k, count_commas k = 2 -> In k (Dict.keys d) ->
       normalize_key k = k /\ In k (Dict.keys d')) /\
    (forall k, count_commas k = 2 ->
       (forall k0, In k0 (Dict.keys d) -> with_value k0 <> k) ->
       Dict.get k d' = Dict.get k d) /\
    mapping_keys_loop d' = OK d'.
Proof.
  intros Hwf.
  destruct (mapping_keys_fold (Dict.keys d) d Hwf Hwf (fun k H _ => H))
    as (d' & Hrun & Hwf' & P1 & P3 & P2 & P4).
  exists d'. split; [exact Hrun|]. split; [|split; [|split]].
  - intros k v Hc Hv. split; [|split].
    + unfold normalize_key. now rewrite Hc.
    + apply P1; [|exact Hc | exact Hv]. now apply DictFacts.get_Some_keys with (v := v).
    + apply P3; [exact Hc|]. left. now apply DictFacts.get_Some_keys with (v := v).
  - intros k Hc Hin. split.
    + unfold normalize_key. now rewrite Hc.
    + destruct (DictFacts.keys_get k d Hin) as [v Hv].
      destruct (Dict.get k d') as [v'|] eqn:Hv'.
      * now apply DictFacts.get_Some_keys with (v := v').
      * exfalso. apply (P4 k); [lia | congruence | exact Hv'].
  - intros k Hc Hfree. apply P2; [lia|]. intros k0 Hk0 _. now apply Hfree.
  - unfold mapping_keys_loop. apply mapping_keys_fold_fixed.
    intros k Hin Hc. apply DictFacts.keys_get in Hin. destruct Hin as [v Hv].
    assert (Hnone : Dict.get k d' = None).
    { apply P3; [exact Hc|].
      destruct (in_dec string_dec k (Dict.keys d)) as [Hi|Ho]; [now left|].
      right. now apply DictFacts.get_None_keys. }
    congruence.
Qed.

Lemma mapping_keys_normalizes_witness :
  Dict.wf [("1,5", JStr "a"); ("1,6,1", JStr "b")] /\
  exists d',
    mapping_keys_loop [("1,5", JStr "a"); ("1,6,1", JStr "b")] = OK d' /\
    Dict.get "1,5,1" d' = Some (JStr "a") /\ Dict.get "1,5" d' = None /\
    In "1,6,1" (Dict.keys d') /\ mapping_keys_loop d' = OK d'.
Proof.
  assert (Hwf : Dict.wf [("1,5", JStr "a"); ("1,6,1", JStr "b")]) by solve_wf.
  split; [exact Hwf|].
  destruct (mapping_keys_normalizes _ Hwf) as (d' & Hrun & H1 & H2 & _ & Hidem).
  exists d'. split; [exact Hrun|].
  destruct (H1 "1,5" (JStr "a") eq_refl eq_refl) as (_ & Ha & Hb).
  destruct (H2 "1,6,1" eq_refl) as (_ & Hc); [simpl; auto|].
  repeat split; assumption.
Defined.

(** C10. When a mapping holds a legacy key [k] and also its 3-component
    form [k ++ ",1"], the loop of [_mapping_keys] ends without an exception,
    stores the value of [k] under [k ++ ",1"] and removes [k]: the value that
    was under [k ++ ",1"] is no longer there. *)
Theorem mapping_keys_overwrites (d : dict) (k : string) (v w : json) :
  Dict.wf d ->
  count_commas k = 1 ->
  Dict.get k d = Some v ->
  Dict.get (with_value k) d = Some w ->
  exists d',
    mapping_keys_loop d = OK d' /\
    Dict.get (with_value k) d' = Some v /\
    Dict.get k d' = None /\
    (v <> w -> Dict.get (with_value k) d' <> Dict.get (with_value k) d).
Proof.
  intros Hwf Hc Hv Hw.
  destruct (mapping_keys_fold (Dict.keys d) d Hwf Hwf (fun k H _ => H))
    as (d' & Hrun & _ & P1 & P3 & _ & _).
  assert (Hin : In k (Dict.keys d)) by now apply DictFacts.get_Some_keys with (v := v).
  exists d'. split; [exact Hrun|].
  assert (Hnew : Dict.get (with_value k) d' = Some v) by now apply P1.
  split; [exact Hnew|]. split.
  - apply P3; [exact Hc | now left].
  - intros Hne. rewrite Hnew, Hw. congruence.
Qed.

Lemma mapping_keys_overwrites_witness :
  exists d',
    mapping_keys_loop [("1,5,1", JStr "b"); ("1,5", JStr "a")] = OK d' /\
    Dict.get "1,5,1" d' = Some (JStr "a") /\ Dict.get "1,5" d' = None.
Proof.
  destruct (mapping_keys_overwrites
              [("1,5,1", JStr "b"); ("1,5", JStr "a")] "1,5" (JStr "a") (JStr "b"))
    as (d' & Hrun & Ha & Hb & _); try reflexivity; [solve_wf|].
  exists d'. repeat split; assumption.
Defined.

(** ** Target resolution *)

Lemma issubset_spec (required : list (option Z)) (have : list Z) :
  issubset required have = true <->
  forall c, In c required -> exists z, c = Some z /\ In z have.
Proof.
  unfold issubset. rewrite forallb_forall. split; intros H c Hc.
  - specialize (H c Hc). destruct c as [z|]; [|discriminate].
    apply existsb_exists in H. destruct H as (z' & Hin & Heq).
    apply Z.eqb_eq in Heq. subst z'. now exists z.
  - destruct (H c Hc) as (z & -> & Hin).
    apply existsb_exists. exists z. split; [exact Hin | apply Z.eqb_refl].
Qed.


Lemma first_capable_none (required : list (option Z))
    (devs : list (string * list Z)) :
  (forall d, In d devs -> issubset required (snd d) = false) ->
  first_capable required devs = None.
Proof.
  induction devs as [|[n ks] devs IH]; intros H; simpl; [reflexivity|].
  pose proof (H (n, ks) (or_introl eq_refl)) as Hn. simpl in Hn. rewrite Hn.
  apply IH. intros d Hd. apply H. now right.
Qed.

Section TargetFacts.

Variable E : env.

Lemma add_target_step_eq (d : dict) (k : string) (symbol : json) :
  add_target_step E (OK d) (k, symbol) =
  if is_list symbol then OK d
  else v <- with_target E symbol ;; OK (Dict.set k v d).
Proof. destruct symbol; reflexivity. Qed.

Lemma add_target_step_Raise (es : dict) (e : exn) :
  fold_left (add_target_step E) es (Raise e) = Raise e.
Proof. induction es as [|kv es IH]; simpl; [reflexivity | exact IH]. Qed.

Lemma keys_set_present (k : string) (v : json) (d : dict) :
  In k (Dict.keys d) -> Dict.keys (Dict.set k v d) = Dict.keys d.
Proof.
  induction d as [|[k0 v0] d IH]; simpl; intros Hin; [contradiction|].
  destruct (String.eqb_spec k k0) as [->|Hne]; simpl; [reflexivity|].
  f_equal. apply IH. destruct Hin; [congruence | assumption].
Qed.

(** What the loop of [_add_target] has done once it has gone through the
    entries [es], started on the dict [cur]. *)
Lemma add_target_fold (es : dict) :
  forall cur d' : dict,
    NoDup (Dict.keys es) ->
    (forall k, In k (Dict.keys es) -> In k (Dict.keys cur)) ->
    fold_left (add_target_step E) es (OK cur) = OK d' ->
    Dict.keys d' = Dict.keys cur /\
    (forall k symbol, In (k, symbol) es -> is_list symbol = false ->
       exists v, with_target E symbol = OK v /\ Dict.get k d' = Some v) /\
    (forall k, ~ In k (Dict.keys es) -> Dict.get k d' = Dict.get k cur).
Proof.
  induction es as [|[k0 s0] es IH]; intros cur d' Hnd Hsub Hrun.
  - simpl in Hrun. injection Hrun as <-. repeat split; auto. intros k s [].
  - simpl in Hnd. inversion Hnd as [|? ? Hk0 Hnd']; subst.
    change (fold_left (add_target_step E) ((k0, s0) :: es) (OK cur))
      with (fold_left (add_target_step E) es (add_target_step E (OK cur) (k0, s0)))
      in Hrun.
    rewrite add_target_step_eq in Hrun.
    assert (Hsub' : forall k, In k (Dict.keys es) -> In k (Dict.keys cur))
      by (intros k Hk; apply Hsub; now right).
    destruct (is_list s0) eqn:Hlist.
    + destruct (IH cur d' Hnd' Hsub' Hrun) as (Hkeys & Hnew & Hold).
      split; [exact Hkeys|]. split.
      * intros k s [Heq|Hin] Hs; [injection Heq as <- <-; congruence|].
        now apply Hnew.
      * intros k Hk. apply Hold. intros Hin. apply Hk. now right.
    + destruct (with_target E s0) as [v0|e] eqn:Hv0; simpl in Hrun;
        [|rewrite add_target_step_Raise in Hrun; discriminate].
      assert (Hk0cur : In k0 (Dict.keys cur)) by (apply Hsub; now left).
      destruct (IH (Dict.set k0 v0 cur) d' Hnd') as (Hkeys & Hnew & Hold);
        [|exact Hrun|].
      { intros k Hk. rewrite keys_set_present by exact Hk0cur. now apply Hsub'. }
      rewrite keys_set_present in Hkeys by exact Hk0cur.
      split; [exact Hkeys|]. split.
      * intros k s [Heq|Hin] Hs.
        -- injection Heq as <- <-. exists v0. split; [exact Hv0|].
           rewrite (Hold k0 Hk0), DictFacts.get_set, String.eqb_refl. reflexivity.
        -- now apply Hnew.
      * intros k Hk. rewrite Hold by (intros Hin; apply Hk; now right).
        rewrite DictFacts.get_set.
        destruct (String.eqb_spec k k0) as [->|_]; [|reflexivity].
        exfalso. apply Hk. now left.
Qed.

Lemma get_In (k : string) (v : json) (d : dict) :
  Dict.get k d = Some v -> In (k, v) d.
Proof.
  induction d as [|[k0 v0] d IH]; simpl; [discriminate|].
  destruct (String.eqb_spec k k0) as [->|_].
  - intros H. injection H as ->. now left.
  - intros H. right. now apply IH.
Qed.

End TargetFacts.



Example find_target_mouse :
  _find_target Sample.e (JStr "mouse(up, 1)") = OK (Some "mouse").
Proof. reflexivity. Qed.

Example find_target_gamepad :
  _find_target Sample.e (JStr "BTN_A") = OK (Some "gamepad").
Proof. reflexivity. Qed.

Example find_target_first_in_order :
  _find_target Sample.e (JStr "BTN_LEFT") = OK (Some "keyboard").
Proof. reflexivity. Qed.

Example with_target_broken :
  with_target Sample.e (JStr "nope") =
  OK (JArr [JStr ("nope" ++ LF ++ "# Broken mapping:" ++ LF
                         ++ "# No target can handle all specified keycodes");
            JStr "keyboard"]).
Proof. reflexivity. Qed.

Example add_target_loop_example :
  add_target_loop Sample.e
    [("1,30,1", JStr "a"); ("1,31,1", JArr [JStr "b"; JStr "keyboard"]);
     ("1,32,1", JStr "nope")] =
  OK [("1,30,1", JArr [JStr "a"; JStr "keyboard"]);
      ("1,31,1", JArr [JStr "b"; JStr "keyboard"]);
      ("1,32,1", JArr [JStr ("nope" ++ broken_note); JStr "keyboard"])].
Proof. reflexivity. Qed.

(** ** Directory listings *)

Module ListingFacts.
Import Listing.

Lemma lookup_app (name : string) (a b : t) :
  lookup name (a ++ b)%list =
  match lookup name a with Some n => Some n | None => lookup name b end.
Proof.
  induction a as [|[name' n] a IH]; simpl; [reflexivity|].
  destruct (String.eqb name name'); [reflexivity | exact IH].
Qed.

Lemma lookup_filter_None (name : string) (p : string * node -> bool) (es : t) :
  lookup name es = None -> lookup name (filter p es) = None.
Proof.
  induction es as [|[name' n] es IH]; simpl; [reflexivity|].
  destruct (String.eqb name name') eqn:Heq; [discriminate|].
  intros H. destruct (p (name', n)); simpl; [rewrite Heq|]; now apply IH.
Qed.

Lemma lookup_update (name name' : string) (n : node) (es : t) :
  lookup name (update name' n es) =
  if String.eqb name name'
  then match lookup name' es with Some _ => Some n | None => None end
  else lookup name es.
Proof.
  induction es as [|[name0 n0] es IH]; simpl.
  - now destruct (String.eqb name name').
  - destruct (String.eqb_spec name' name0) as [->|Hne]; simpl.
    + destruct (String.eqb name name0); reflexivity.
    + rewrite IH. destruct (String.eqb_spec name name') as [->|Hne'].
      * destruct (String.eqb_spec name' name0); [congruence | reflexivity].
      * reflexivity.
Qed.

Lemma In_dirs (name : string) (n : node) (es : t) :
  In (name, n) (dirs es) <-> In (name, n) es /\ is_dir n = true.
Proof. unfold dirs. rewrite filter_In. reflexivity. Qed.

Lemma In_others (name : string) (n : node) (es : t) :
  In (name, n) (others es) <-> In (name, n) es /\ is_dir n = false.
Proof.
  unfold others. rewrite filter_In. simpl.
  destruct (is_dir n); simpl; intuition discriminate.
Qed.

End ListingFacts.

(** C9. [_preset_path] leaves the disk as it is when the presets directory
    exists or the config root does not exist. When the config root is a
    directory without a presets entry, it creates the presets directory and
    moves every top-level directory into it under its own name: afterwards
    the presets directory holds exactly the directories of the old listing,
    and the top level holds the old entries that are no directories, and
    the presets directory. *)
Theorem preset_path_nesting (s : fs) :
  (exists_child "presets" s = true \/ root s = None -> _preset_path s = done s) /\
  (forall es,
     root s = Some (Dir es) -> Listing.mem "presets" es = false ->
     exists s' top,
       _preset_path s = done s' /\ legacy s' = legacy s /\
       root s' = Some (Dir top) /\
       (forall group n,
          In (group, n) es /\ is_dir n = true <->
          exists moved, child "presets" s' = Some (Dir moved) /\ In (group, n) moved) /\
       (forall name n,
          In (name, n) top <->
          (In (name, n) es /\ is_dir n = false) \/
          (name = "presets" /\ n = Dir (Listing.dirs es)))).
Proof.
  split.
  - intros [Hex|Hroot]; unfold _preset_path, get_preset_path.
    + unfold exists_child, child in Hex.
      destruct (root s) as [[f|es]|]; try discriminate.
      unfold Listing.mem. destruct (Listing.lookup "presets" es); [reflexivity | discriminate].
    + now rewrite Hroot.
  - intros es Hroot Hmem.
    unfold _preset_path, get_preset_path. rewrite Hroot, Hmem.
    eexists. exists (Listing.others es ++ [("presets", Dir (Listing.dirs es))])%list.
    split; [reflexivity|]. split; [reflexivity|]. split; [reflexivity|].
    assert (Hpresets : child "presets"
                         {| root := Some (Dir (Listing.others es
                                      ++ [("presets", Dir (Listing.dirs es))])%list);
                            legacy := legacy s |}
                       = Some (Dir (Listing.dirs es))).
    { unfold child; simpl. rewrite ListingFacts.lookup_app.
      unfold Listing.others. rewrite ListingFacts.lookup_filter_None; [reflexivity|].
      unfold Listing.mem in Hmem.
      destruct (Listing.lookup "presets" es); [discriminate | reflexivity]. }
    split.
    + intros group n. rewrite Hpresets. split.
      * intros H. exists (Listing.dirs es). split; [reflexivity|].
        now apply ListingFacts.In_dirs.
      * intros (moved & Heq & Hin). injection Heq as <-.
        now apply ListingFacts.In_dirs.
    + intros name n. rewrite in_app_iff, ListingFacts.In_others. simpl.
      split; intros [H|H]; auto.
      * destruct H as [H|[]]. injection H as <- <-. now right.
      * destruct H as [-> ->]. right. now left.
Qed.

Lemma preset_path_nesting_witness :
  exists s' top,
    _preset_path
      {| root := Some (Dir [("config.json", File (write_json (JObj []) true));
                            ("Foo Device", Dir [])]);
         legacy := None |} = done s' /\
    root s' = Some (Dir top) /\ child "presets" s' = Some (Dir [("Foo Device", Dir [])]).
Proof.
  destruct (preset_path_nesting
              {| root := Some (Dir [("config.json", File (write_json (JObj []) true));
                                    ("Foo Device", Dir [])]);
                 legacy := None |}) as (_ & Hmove).
  destruct (Hmove _ eq_refl eq_refl) as (s' & top & Hrun & _ & Hroot & _ & _).
  exists s', top. split; [exact Hrun|]. split; [exact Hroot|].
  injection Hrun as <-. reflexivity.
Defined.

(** ** The version store *)

Lemma child_set_child (name name' : string) (n : node) (s : fs) :
  child name (set_child name' n s) =
  if String.eqb name name'
  then match child name' s with Some _ => Some n | None => None end
  else child name s.
Proof.
  unfold child, set_child.
  destruct (root s) as [[f|es]|] eqn:Hroot; simpl; try rewrite Hroot.
  - now destruct (String.eqb name name').
  - apply ListingFacts.lookup_update.
  - now destruct (String.eqb name name').
Qed.

(** C4, as the specification has it, fails: on a config file that is no
    JSON, [config_version] raises and returns no version. *)
Lemma config_version_raises_on_truncated_config :
  config_version Sample.e truncated_config = Raise JSONDecodeError /\
  ~ (exists v, config_version Sample.e truncated_config = OK v).
Proof.
  split; [reflexivity|]. intros [v H]. discriminate H.
Qed.

(** C4, amended. [config_version] returns the version 0.0.0 when the config
    file is absent and when it holds a JSON object without a [version]
    field, and the parsed [version] field when that is a string the version
    parser accepts. In every other case it raises: the exception of
    [json.load] when the file cannot be read as JSON, [AttributeError] when
    the JSON is no object, [TypeError] when the [version] field is no
    string, the exception of the version parser when it rejects the string,
    and [OSError] when config.json is a directory. *)
Theorem config_version_defaults (E : env) (s : fs) (zero : version E) :
  parse_version E "0.0.0" = OK zero ->
  (child "config.json" s = None -> config_version E s = OK zero) /\
  (forall f config,
     child "config.json" s = Some (File f) -> parsed f = OK (JObj config) ->
     Dict.get "version" config = None -> config_version E s = OK zero) /\
  (forall f config text v,
     child "config.json" s = Some (File f) -> parsed f = OK (JObj config) ->
     Dict.get "version" config = Some (JStr text) -> parse_version E text = OK v ->
     config_version E s = OK v) /\
  (forall f e,
     child "config.json" s = Some (File f) -> parsed f = Raise e ->
     config_version E s = Raise e) /\
  (forall f j,
     child "config.json" s = Some (File f) -> parsed f = OK j ->
     (forall config, j <> JObj config) ->
     config_version E s = Raise AttributeError) /\
  (forall f config j,
     child "config.json" s = Some (File f) -> parsed f = OK (JObj config) ->
     Dict.get "version" config = Some j -> (forall text, j <> JStr text) ->
     config_version E s = Raise TypeError) /\
  (forall f config text e,
     child "config.json" s = Some (File f) -> parsed f = OK (JObj config) ->
     Dict.get "version" config = Some (JStr text) -> parse_version E text = Raise e ->
     config_version E s = Raise e) /\
  (forall es,
     child "config.json" s = Some (Dir es) -> config_version E s = Raise OSError).
Proof.
  intros Hzero. unfold config_version.
  split; [|split; [|split; [|split; [|split; [|split; [|split]]]]]].
  - intros ->. exact Hzero.
  - intros f config -> -> ->. exact Hzero.
  - intros f config txt v -> -> -> Hv. exact Hv.
  - intros f e -> ->. reflexivity.
  - intros f j -> -> Hj.
    destruct j; try reflexivity. exfalso. now apply (Hj entries).
  - intros f config j -> -> -> Hj.
    destruct j; try reflexivity. exfalso. now apply (Hj s0).
  - intros f config txt e -> -> -> He. exact He.
  - intros es ->. reflexivity.
Qed.

Lemma config_version_defaults_witness :
  config_version Sample.e {| root := None; legacy := None |} = OK [0; 0; 0] /\
  config_version Sample.e
    {| root := Some (Dir [("config.json",
                           File (write_json (JObj [("autoload", JObj [])]) true))]);
       legacy := None |} = OK [0; 0; 0].
Proof.
  split.
  - apply (config_version_defaults Sample.e {| root := None; legacy := None |}
             [0; 0; 0] eq_refl). reflexivity.
  - destruct (config_version_defaults Sample.e
                {| root := Some (Dir [("config.json",
                     File (write_json (JObj [("autoload", JObj [])]) true))]);
                   legacy := None |} [0; 0; 0] eq_refl) as (_ & H & _).
    apply (H (write_json (JObj [("autoload", JObj [])]) true)
             [("autoload", JObj [])]); reflexivity.
Defined.



(** ** The text that [json.dump] writes *)

Lemma last_char_app (a b : string) :
  b <> EmptyString -> last_char (a ++ b) = last_char b.
Proof.
  intros Hb. induction a as [|c a IH]; simpl; [reflexivity|].
  destruct (a ++ b) eqn:Hab; [|exact IH].
  destruct a; simpl in Hab; [contradiction | discriminate].
Qed.

Lemma append_assoc (a b c : string) : a ++ (b ++ c) = (a ++ b) ++ c.
Proof. induction a as [|x a IH]; simpl; [reflexivity | now rewrite IH]. Qed.

Lemma json_dumps_object_ends_with_brace (entries : dict) :
  last_char (json_dumps (JObj entries)) = Some "}"%char.
Proof.
  destruct entries as [|kv entries]; [reflexivity|].
  unfold json_dumps, json_dumps_at; fold json_dumps_at.
  rewrite !append_assoc.
  rewrite last_char_app; [reflexivity | discriminate].
Qed.

Lemma write_json_newline (j : json) :
  last_char (text (write_json j true)) = Some (ascii_of_nat 10).
Proof. simpl. rewrite last_char_app; [reflexivity | discriminate]. Qed.

(** The two working halves of C7: without a config file [_update_version]
    does nothing; with one that holds an object it writes the pretty-printed
    object with the version set. The text it writes ends with the closing
    brace, not with a newline. *)
Lemma update_version_text (E : env) (s : fs) :
  (child "config.json" s = None -> _update_version E s = done s) /\
  (forall f config,
     child "config.json" s = Some (File f) -> parsed f = OK (JObj config) ->
     exists s' f',
       _update_version E s = done s' /\
       child "config.json" s' = Some (File f') /\
       text f' = json_dumps (JObj (Dict.set "version" (JStr (VERSION E)) config)) /\
       last_char (text f') = Some "}"%char).
Proof.
  split.
  - intros H. unfold _update_version. now rewrite H.
  - intros f config Hchild Hparsed.
    eexists. eexists. split; [unfold _update_version; now rewrite Hchild, Hparsed|].
    split; [rewrite child_set_child, String.eqb_refl, Hchild; reflexivity|].
    assert (Hnil : forall t : string, t ++ EmptyString = t)
      by (intros t; induction t as [|c t IH]; simpl; [reflexivity | now rewrite IH]).
    simpl. rewrite Hnil. split; [reflexivity|].
    apply json_dumps_object_ends_with_brace.
Qed.

(** C7, where the code parts from the claim: the config file that
    [_update_version] writes for release 1.4.0 ends with the closing brace;
    no newline follows it. *)
Theorem update_version_writes_no_newline :
  exists s',
    _update_version Sample.e old_config = done s' /\
    child "config.json" s' =
      Some (File {| text := "{" ++ LF
                         ++ "    " ++ quote "version" ++ ": " ++ quote "1.4.0" ++ "," ++ LF
                         ++ "    " ++ quote "autoload" ++ ": {}" ++ LF
                         ++ "}";
                    parsed := OK (JObj [("version", JStr "1.4.0");
                                          ("autoload", JObj [])]) |}) /\
    (forall f, child "config.json" s' = Some (File f) ->
               last_char (text f) <> Some (ascii_of_nat 10)).
Proof.
  eexists. split; [reflexivity|]. split; [reflexivity|].
  intros f Hf. vm_compute in Hf. injection Hf as <-. vm_compute. discriminate.
Qed.

(** ** The walk over the preset files *)

Lemma for_each_preset_app (body : node -> result node) (a b : Listing.t) :
  for_each_preset body (a ++ b)%list =
  match for_each_preset body a with
  | (a', None) => let (b', r) := for_each_preset body b in ((a' ++ b')%list, r)
  | (a', Some e) => ((a' ++ b)%list, Some e)
  end.
Proof.
  induction a as [|[name n] a IH]; simpl.
  - now destruct (for_each_preset body b).
  - destruct (has_json_suffix name).
    + destruct (body n) as [n'|e]; [|reflexivity].
      rewrite IH. destruct (for_each_preset body a) as [a' [e|]]; [reflexivity|].
      now destruct (for_each_preset body b).
    + rewrite IH. destruct (for_each_preset body a) as [a' [e|]]; [reflexivity|].
      now destruct (for_each_preset body b).
Qed.






Example add_target_skips_corrupt_preset :
  _add_target Sample.e with_corrupt_preset =
  ({| root := Some (Dir [("presets",
        Dir [("Foo Device",
              Dir [("broken.json", File {| text := "{"; parsed := Raise JSONDecodeError |});
                   ("good.json",
                    File (write_json
                            (JObj [("mapping",
                                    JObj [("1,5", JArr [JStr "a"; JStr "keyboard"])])])
                            true))])])]);
      legacy := None |}, None).
Proof. reflexivity. Qed.

(** ** A failure inside one mapping entry *)

(** C5, where the code parts from the claim: the macro parser raises on the
    first entry of [a.json]; nothing catches it, so [migrate] ends with that
    exception. The other entry, the other preset and the version stamp are
    never reached: the disk is what it was. *)
Theorem malformed_macro_aborts_migrate :
  with_target Sample.e (JStr "r(2, k(a)") = Raise MacroError /\
  _add_target Sample.e malformed_macro_disk = (malformed_macro_disk, Some MacroError) /\
  migrate Sample.e malformed_macro_disk = (malformed_macro_disk, Some MacroError).
Proof. repeat split; reflexivity. Qed.

(** An exception of the collaborators in one entry ends the loop over the
    mapping, whatever the entries after it are. *)
Lemma add_target_loop_raises (E : env) (before after : dict) (k : string)
    (symbol : json) (e : exn) (cur : dict) :
  is_list symbol = false ->
  required_capabilities E symbol = Raise e ->
  (exists d, fold_left (add_target_step E) before (OK cur) = OK d) ->
  fold_left (add_target_step E) (before ++ (k, symbol) :: after)%list (OK cur) = Raise e.
Proof.
  intros Hbare Hraise [d Hd].
  rewrite fold_left_app, Hd.
  change (fold_left (add_target_step E) ((k, symbol) :: after) (OK d))
    with (fold_left (add_target_step E) after (add_target_step E (OK d) (k, symbol))).
  rewrite add_target_step_eq, Hbare.
  unfold with_target, _find_target. rewrite Hraise. simpl.
  apply add_target_step_Raise.
Qed.

(** ** Running [migrate] twice *)

(** C2, as the specification has it, fails: from a disk with only the
    key-mapper directory, the first run moves that directory and writes no
    version (there is no config.json to stamp); the second run then renames
    the config file, nests the presets and rewrites them. *)
Lemma second_run_changes_disk :
  exists s1 s2,
    migrate Sample.e legacy_only = (s1, None) /\
    migrate Sample.e s1 = (s2, None) /\
    s1 <> s2 /\
    child "config.json" s1 = None /\ child "presets" s1 = None /\
    child "config.json" s2 =
      Some (File (write_json (JObj [("autoload", JObj []);
                                    ("version", JStr "1.4.0")]) false)) /\
    child "presets" s2 =
      Some (Dir [("Foo Device",
                  Dir [("p.json",
                        File (write_json
                                (JObj [("mapping",
                                        JObj [("1,5,1",
                                               JArr [JStr "a"; JStr "keyboard"])])])
                                true))])]).
Proof.
  eexists. eexists.
  split; [reflexivity|]. split; [reflexivity|].
  split; [intros H; discriminate H|].
  repeat split; reflexivity.
Qed.

Lemma and_then_None (first second : fs -> outcome) (s s2 : fs) :
  and_then first second s = (s2, None) ->
  exists s1, first s = (s1, None) /\ second s1 = (s2, None).
Proof.
  unfold and_then. destruct (first s) as [s1 [e|]]; intros H; [discriminate|].
  now exists s1.
Qed.

Lemma and_then_done (first second : fs -> outcome) (s : fs) :
  first s = done s -> and_then first second s = second s.
Proof. unfold and_then. now intros ->. Qed.

Section SecondRun.

Variable E : env.

Lemma gate_closed (v : version E) (t : string) (step : fs -> outcome) (s : fs) :
  (exists tv, parse_version E t = OK tv /\ version_lt E v tv = false) ->
  gate E v t step s = done s.
Proof. intros (tv & Hp & Hlt). unfold gate. now rewrite Hp, Hlt. Qed.

Lemma migrate_closed (s : fs) (v : version E) :
  config_version E s = OK v ->
  (forall t, In t ["0.4.0"; "1.2.2"; "1.3.0"; "1.4.0"; VERSION E] ->
             exists tv, parse_version E t = OK tv /\ version_lt E v tv = false) ->
  migrate E s = done s.
Proof.
  intros Hv Hclosed. unfold migrate. rewrite Hv.
  assert (Hgate : forall t step s',
            In t ["0.4.0"; "1.2.2"; "1.3.0"; "1.4.0"; VERSION E] ->
            gate E v t step s' = done s')
    by (intros t step s' Ht; apply gate_closed, Hclosed, Ht).
  rewrite !and_then_done by (apply Hgate; simpl; auto 6).
  apply Hgate. simpl; auto 6.
Qed.

(** Reading the version back from a config file that [_update_version]
    has written. *)
Lemma config_version_after_update (s s1 : fs) :
  _update_version E s = (s1, None) ->
  exists_child "config.json" s1 = true ->
  config_version E s1 = parse_version E (VERSION E).
Proof.
  unfold _update_version, exists_child.
  destruct (child "config.json" s) as [[f|es]|] eqn:Hchild.
  - destruct (parsed f) as [[| | | | |config]|]; try discriminate.
    intros H _. injection H as <-.
    unfold config_version.
    rewrite child_set_child, String.eqb_refl, Hchild. simpl.
    now rewrite DictFacts.get_set, String.eqb_refl.
  - discriminate.
  - intros H. injection H as <-. now rewrite Hchild.
Qed.

End SecondRun.

(** C2, amended. Let the application version be at or above every
    threshold of [migrate]. Whenever the first run ends normally and leaves
    a config file, the second run ends normally too and changes nothing on
    disk. *)
Theorem second_run_is_noop (E : env) (V : version E) (s s1 : fs) :
  parse_version E (VERSION E) = OK V ->
  version_lt E V V = false ->
  (forall t, In t ["0.4.0"; "1.2.2"; "1.3.0"; "1.4.0"] ->
     exists tv, parse_version E t = OK tv /\
                forall v, version_lt E v V = false -> version_lt E v tv = false) ->
  migrate E s = (s1, None) ->
  exists_child "config.json" s1 = true ->
  migrate E s1 = (s1, None).
Proof.
  intros HV Hirr Hthresholds Hrun Hconfig.
  assert (Hclosed : forall v, version_lt E v V = false ->
            forall t, In t ["0.4.0"; "1.2.2"; "1.3.0"; "1.4.0"; VERSION E] ->
            exists tv, parse_version E t = OK tv /\ version_lt E v tv = false).
  { intros v Hv t Ht.
    assert (Hcases : In t ["0.4.0"; "1.2.2"; "1.3.0"; "1.4.0"] \/ t = VERSION E)
      by (simpl in Ht; simpl; intuition).
    destruct Hcases as [Hin | ->].
    - destruct (Hthresholds t Hin) as (tv & Hp & Hle). exists tv. auto.
    - exists V. auto. }
  destruct (config_version E s) as [v|e] eqn:Hv;
    [|unfold migrate in Hrun; rewrite Hv in Hrun; discriminate].
  destruct (version_lt E v V) eqn:Hlt.
  - (* the first run has stamped the config file *)
    unfold migrate in Hrun. rewrite Hv in Hrun.
    apply and_then_None in Hrun. destruct Hrun as (sa & _ & Hrun).
    apply and_then_None in Hrun. destruct Hrun as (sb & _ & Hrun).
    apply and_then_None in Hrun. destruct Hrun as (sc & _ & Hrun).
    apply and_then_None in Hrun. destruct Hrun as (sd & _ & Hrun).
    unfold gate in Hrun. rewrite HV, Hlt in Hrun.
    apply (migrate_closed E s1 V).
    + rewrite (config_version_after_update E sd s1 Hrun Hconfig). exact HV.
    + apply Hclosed. exact Hirr.
  - (* the stored version was current already: the first run did nothing *)
    rewrite (migrate_closed E s v Hv) in Hrun by (apply Hclosed, Hlt).
    injection Hrun as <-. apply (migrate_closed E s v Hv), Hclosed, Hlt.
Qed.

(** ** The order on the sample versions *)

Module SampleFacts.
Import Sample.

Lemma nonzero_cons (y : nat) (v : release) :
  nonzero (y :: v) = negb (Nat.eqb y 0) || nonzero v.
Proof. reflexivity. Qed.

Lemma release_lt_nil_l (b : release) : release_lt [] b = nonzero b.
Proof. reflexivity. Qed.

Lemma release_lt_zero_r (c : release) :
  nonzero c = false -> forall a, release_lt a c = false.
Proof.
  induction c as [|z c IH]; intros Hc a.
  - destruct a; reflexivity.
  - rewrite nonzero_cons in Hc. apply orb_false_iff in Hc. destruct Hc as [Hz Hc].
    apply negb_false_iff, Nat.eqb_eq in Hz. subst z.
    destruct a as [|x a]; simpl.
    + exact Hc.
    + destruct (Nat.ltb_spec 0 x); [reflexivity | now apply IH].
Qed.

Lemma release_lt_zero_l (b : release) :
  nonzero b = false -> forall c, release_lt b c = nonzero c.
Proof.
  induction b as [|y b IH]; intros Hb c; [reflexivity|].
  rewrite nonzero_cons in Hb. apply orb_false_iff in Hb. destruct Hb as [Hy Hb].
  apply negb_false_iff, Nat.eqb_eq in Hy. subst y.
  destruct c as [|z c]; [reflexivity|]. rewrite nonzero_cons. simpl.
  destruct (Nat.ltb_spec 0 z) as [Hz|Hz].
  - destruct (Nat.eqb_spec z 0); [lia | reflexivity].
  - assert (z = 0) by lia. subst z. simpl. now apply IH.
Qed.

(** If [a] is not below [b] and [b] is not below [c], [a] is not below [c]. *)
Lemma release_lt_chain (a : release) :
  forall b c, release_lt a b = false -> release_lt b c = false ->
              release_lt a c = false.
Proof.
  induction a as [|x a IH]; intros b c Hab Hbc.
  - rewrite release_lt_nil_l in *.
    now rewrite (release_lt_zero_l b Hab) in Hbc.
  - destruct b as [|y b].
    + rewrite release_lt_nil_l in Hbc. now apply release_lt_zero_r.
    + destruct c as [|z c]; [reflexivity|].
      simpl in *.
      destruct (Nat.ltb_spec x y); [discriminate|].
      destruct (Nat.ltb_spec y z); [discriminate|].
      destruct (Nat.ltb_spec x z); [lia|].
      destruct (Nat.ltb_spec z x); [reflexivity|].
      destruct (Nat.ltb_spec y x); [lia|].
      destruct (Nat.ltb_spec z y); [lia|].
      now apply (IH b c).
Qed.

End SampleFacts.

Lemma second_run_is_noop_witness :
  exists s1,
    migrate Sample.e flat_layout = (s1, None) /\
    exists_child "config.json" s1 = true /\
    migrate Sample.e s1 = (s1, None).
Proof.
  eexists. split; [reflexivity|]. split; [reflexivity|].
  apply (second_run_is_noop Sample.e [1; 4; 0] flat_layout);
    [reflexivity | reflexivity | | reflexivity | reflexivity].
  intros t Ht. simpl in Ht.
  destruct Ht as [<-|[<-|[<-|[<-|[]]]]]; eexists; (split; [reflexivity|]);
    intros v Hv; apply (SampleFacts.release_lt_chain v [1; 4; 0] _ Hv); reflexivity.
Defined.

Example migrate_flat_layout :
  migrate Sample.e flat_layout =
  ({| root := Some (Dir [
        ("config.json",
         File (write_json (JObj [("autoload", JObj []); ("version", JStr "1.4.0")])
                 false));
        ("presets",
         Dir [("Foo Device",
               Dir [("p.json",
                     File (write_json
                             (JObj [("mapping",
                                     JObj [("1,5,1", JArr [JStr "a"; JStr "keyboard"])])])
                             true))])])]);
      legacy := None |}, None).
Proof. reflexivity. Qed.

(** ** Checks of the model against the behaviour of the Python functions *)

Example suffix_of_a_preset :
  has_json_suffix "Default.json" = true /\ has_json_suffix ".json" = false /\
  has_json_suffix "notes.txt" = false /\ has_json_suffix "a.json.bak" = false.
Proof. repeat split; reflexivity. Qed.

Example dump_escapes_the_note :
  json_dumps (JArr [JStr ("x" ++ broken_note); JStr "keyboard"]) =
  "[" ++ LF
      ++ "    " ++ String dquote ("x" ++ String backslash "n# Broken mapping:"
                   ++ String backslash "n# No target can handle all specified keycodes")
      ++ String dquote "," ++ LF
      ++ "    " ++ quote "keyboard" ++ LF
      ++ "]".
Proof. reflexivity. Qed.

Example key_count :
  count_commas "1,5" = 1 /\ count_commas "1,5,1" = 2 /\ normalize_key "1,5" = "1,5,1".
Proof. repeat split; reflexivity. Qed.

(** * Further properties of the migration functions *)

(** ** What the walk over the presets touches *)

Lemma for_each_preset_keeps (body : node -> result node) (es : Listing.t) :
  forall es' r,
    for_each_preset body es = (es', r) ->
    Listing.names es' = Listing.names es /\
    (forall name n, In (name, n) es -> has_json_suffix name = false ->
                    In (name, n) es').
Proof.
  induction es as [|[name n] es IH]; intros es' r H; simpl in H.
  - injection H as <- <-. split; [reflexivity | intros ? ? []].
  - destruct (has_json_suffix name) eqn:Hs.
    + destruct (body n) as [n'|e].
      * destruct (for_each_preset body es) as [es1 r1] eqn:Hrec.
        injection H as <- <-. destruct (IH es1 r1 eq_refl) as [Hn Hk].
        split; [simpl; now rewrite Hn|].
        intros name0 n0 [Heq|Hin] Hs0.
        -- injection Heq as <- <-. congruence.
        -- right. now apply Hk.
      * injection H as <- <-. split; [reflexivity | auto].
    + destruct (for_each_preset body es) as [es1 r1] eqn:Hrec.
      injection H as <- <-. destruct (IH es1 r1 eq_refl) as [Hn Hk].
      split; [simpl; now rewrite Hn|].
      intros name0 n0 [Heq|Hin] Hs0.
      * injection Heq as <- <-. now left.
      * right. now apply Hk.
Qed.

Lemma presets_of_folder_names (folder : string) (es es' : Listing.t) :
  Listing.names es' = Listing.names es ->
  presets_of_folder folder es' = presets_of_folder folder es.
Proof.
  unfold presets_of_folder, Listing.names.
  revert es'. induction es as [|[name n] es IH]; intros [|[name' n'] es'] H;
    simpl in H; try discriminate; [reflexivity|].
  injection H as -> H. simpl.
  destruct (has_json_suffix name); simpl; now rewrite (IH es' H).
Qed.

Lemma for_each_folder_keeps (body : node -> result node) (gs : Listing.t) :
  forall gs' r,
    for_each_folder body gs = (gs', r) ->
    Listing.names gs' = Listing.names gs /\
    all_presets_in gs' = all_presets_in gs /\
    (forall g f, In (g, File f) gs -> In (g, File f) gs') /\
    (forall g es, In (g, Dir es) gs ->
       exists es', In (g, Dir es') gs' /\
                   Listing.names es' = Listing.names es /\
                   forall name n, In (name, n) es -> has_json_suffix name = false ->
                                  In (name, n) es').
Proof.
  induction gs as [|[g [f|es]] gs IH]; intros gs' r H; simpl in H.
  - injection H as <- <-. repeat split; try reflexivity; intros ? ? [].
  - destruct (for_each_folder body gs) as [gs1 r1] eqn:Hrec.
    injection H as <- <-.
    destruct (IH gs1 r1 eq_refl) as (Hn & Ha & Hf & Hd).
    split; [simpl; now rewrite Hn|]. split; [simpl; exact Ha|]. split.
    + intros g0 f0 [Heq|Hin]; [left; exact Heq | right; now apply Hf].
    + intros g0 es0 [Heq|Hin]; [discriminate|].
      destruct (Hd g0 es0 Hin) as (es' & Hin' & Hrest). exists es'. split; [now right | exact Hrest].
  - destruct (for_each_preset body es) as [es1 [e|]] eqn:Hes.
    + injection H as <- <-.
      destruct (for_each_preset_keeps body es es1 (Some e) Hes) as [Hn Hk].
      split; [reflexivity|].
      split; [simpl; now rewrite (presets_of_folder_names g es es1 Hn)|].
      split; [intros g0 f0 [Heq|Hin]; [discriminate | now right]|].
      intros g0 es0 [Heq|Hin].
      * injection Heq as <- <-. exists es1. split; [now left | now split].
      * exists es0. split; [now right | now split].
    + destruct (for_each_folder body gs) as [gs1 r1] eqn:Hrec.
      injection H as <- <-.
      destruct (for_each_preset_keeps body es es1 None Hes) as [Hn Hk].
      destruct (IH gs1 r1 eq_refl) as (Hgn & Ha & Hf & Hd).
      split; [simpl; now rewrite Hgn|].
      split; [simpl; now rewrite Ha, (presets_of_folder_names g es es1 Hn)|].
      split; [intros g0 f0 [Heq|Hin]; [discriminate | right; now apply Hf]|].
      intros g0 es0 [Heq|Hin].
      * injection Heq as <- <-. exists es1. split; [now left | now split].
      * destruct (Hd g0 es0 Hin) as (es' & Hin' & Hrest).
        exists es'. split; [now right | exact Hrest].
Qed.

(** X1. The loop over [all_presets()] of [_mapping_keys] and [_add_target],
    whatever its body does and however it ends, changes nothing outside the
    presets directory, renames, adds and removes nothing inside it, keeps
    the list that [all_presets] gives, and leaves alone the files directly
    under the presets directory and the files whose name has no [.json]
    suffix. *)
Theorem presets_walk_frame (body : node -> result node) (s s' : fs) (r : option exn) :
  for_all_presets body s = (s', r) ->
  legacy s' = legacy s /\
  (forall name, name <> get_preset_path -> child name s' = child name s) /\
  all_presets s' = all_presets s /\
  (forall gs, child get_preset_path s = Some (Dir gs) ->
     exists gs',
       child get_preset_path s' = Some (Dir gs') /\
       Listing.names gs' = Listing.names gs /\
       (forall g f, In (g, File f) gs -> In (g, File f) gs') /\
       (forall g es, In (g, Dir es) gs ->
          exists es', In (g, Dir es') gs' /\
                      Listing.names es' = Listing.names es /\
                      forall name n, In (name, n) es -> has_json_suffix name = false ->
                                     In (name, n) es')).
Proof.
  unfold for_all_presets.
  destruct (child get_preset_path s) as [[f|gs]|] eqn:Hchild; intros H.
  - injection H as <- <-. repeat split; auto. intros gs Hgs. congruence.
  - destruct (for_each_folder body gs) as [gs1 r1] eqn:Hwalk.
    injection H as <- <-.
    destruct (for_each_folder_keeps body gs gs1 r1 Hwalk) as (Hn & Ha & Hf & Hd).
    assert (Hnew : child get_preset_path (set_child get_preset_path (Dir gs1) s)
                   = Some (Dir gs1))
      by (rewrite child_set_child, String.eqb_refl, Hchild; reflexivity).
    split; [unfold set_child; now destruct (root s) as [[?|?]|]|].
    split.
    { intros name Hname. rewrite child_set_child.
      destruct (String.eqb_spec name get_preset_path); [contradiction | reflexivity]. }
    split; [unfold all_presets; now rewrite Hnew, Hchild, Ha|].
    intros gs0 Hgs0. injection Hgs0 as <-. exists gs1. auto.
  - injection H as <- <-. repeat split; auto. intros gs Hgs. congruence.
Qed.

Lemma presets_walk_frame_witness :
  exists s',
    _mapping_keys with_corrupt_preset = (s', None) /\
    all_presets s' = OK [("Foo Device", "broken.json"); ("Foo Device", "good.json")].
Proof.
  eexists. split; [reflexivity|].
  destruct (presets_walk_frame mapping_keys_preset with_corrupt_preset _ None eq_refl)
    as (_ & _ & Hlist & _).
  rewrite Hlist. reflexivity.
Defined.

(** ** How the walk ends on an exception *)

Lemma for_each_preset_abort (body : node -> result node) (name : string) (n : node)
    (e : exn) (before before' after : Listing.t) :
  has_json_suffix name = true ->
  body n = Raise e ->
  for_each_preset body before = (before', None) ->
  for_each_preset body (before ++ (name, n) :: after)%list =
  ((before' ++ (name, n) :: after)%list, Some e).
Proof.
  intros Hname Hbody Hbefore.
  rewrite for_each_preset_app, Hbefore. simpl. now rewrite Hname, Hbody.
Qed.

(** X2. A preset file that holds JSON which is no object (an array, a
    string, a number) ends both steps with [AttributeError]: the presets of
    the folder that were walked before it are rewritten, the file itself and
    the presets after it are left as they were. *)
Theorem non_object_preset_aborts (E : env) (body : node -> result node)
    (name : string) (f : file) (j : json) (before before' after : Listing.t) :
  body = mapping_keys_preset \/ body = add_target_preset E ->
  has_json_suffix name = true ->
  parsed f = OK j ->
  (forall d, j <> JObj d) ->
  for_each_preset body before = (before', None) ->
  body (File f) = Raise AttributeError /\
  for_each_preset body (before ++ (name, File f) :: after)%list =
  ((before' ++ (name, File f) :: after)%list, Some AttributeError).
Proof.
  intros Hbody Hname Hparsed Hj Hbefore.
  assert (Hraise : body (File f) = Raise AttributeError).
  { destruct Hbody as [-> | ->]; simpl; rewrite Hparsed;
      destruct j; try reflexivity; exfalso; eapply Hj; reflexivity. }
  split; [exact Hraise|]. now apply for_each_preset_abort.
Qed.

Lemma non_object_preset_aborts_witness :
  for_each_preset mapping_keys_preset
    [("a.json", legacy_preset);
     ("b.json", File {| text := "[]"; parsed := OK (JArr []) |});
     ("c.json", legacy_preset)] =
  ([("a.json", File (write_json (JObj [("mapping", JObj [("1,5,1", JStr "a")])]) true));
    ("b.json", File {| text := "[]"; parsed := OK (JArr []) |});
    ("c.json", legacy_preset)], Some AttributeError).
Proof.
  apply (non_object_preset_aborts Sample.e mapping_keys_preset "b.json"
           {| text := "[]"; parsed := OK (JArr []) |} (JArr [])
           [("a.json", legacy_preset)]
           [("a.json",
             File (write_json (JObj [("mapping", JObj [("1,5,1", JStr "a")])]) true))]
           [("c.json", legacy_preset)]);
    try reflexivity; [now left | discriminate].
Defined.

(** ** The layout migrations *)

Lemma lookup_rename_new (old new : string) (es : Listing.t) :
  Listing.lookup new es = None ->
  Listing.lookup new (Listing.rename old new es) = Listing.lookup old es.
Proof.
  induction es as [|[name n] es IH]; simpl; [reflexivity|].
  destruct (String.eqb_spec new name) as [->|Hne]; [discriminate|].
  intros Hnone. destruct (String.eqb_spec old name) as [->|Hne']; simpl.
  - now rewrite String.eqb_refl.
  - destruct (String.eqb_spec new name); [contradiction | now apply IH].
Qed.

Lemma lookup_rename_other (name old new : string) (es : Listing.t) :
  name <> old -> name <> new ->
  Listing.lookup name (Listing.rename old new es) = Listing.lookup name es.
Proof.
  intros Hold Hnew. induction es as [|[name' n] es IH]; simpl; [reflexivity|].
  destruct (String.eqb_spec old name') as [->|Hne]; simpl.
  - destruct (String.eqb_spec name new); [contradiction|].
    destruct (String.eqb_spec name name'); [contradiction | reflexivity].
  - destruct (String.eqb name name'); [reflexivity | exact IH].
Qed.

Lemma lookup_None_names (name : string) (es : Listing.t) :
  Listing.lookup name es = None <-> ~ In name (Listing.names es).
Proof.
  induction es as [|[name' n] es IH]; simpl; [tauto|].
  destruct (String.eqb_spec name name') as [->|Hne].
  - split; [discriminate | intros H; exfalso; apply H; now left].
  - rewrite IH. split.
    + intros H [Heq|Hin]; [congruence | now apply H].
    + intros H Hin. apply H. now right.
Qed.

Lemma lookup_rename_old (old new : string) (es : Listing.t) :
  old <> new -> NoDup (Listing.names es) ->
  Listing.lookup old (Listing.rename old new es) = None.
Proof.
  intros Hne. induction es as [|[name n] es IH]; simpl; intros Hnd; [reflexivity|].
  inversion Hnd as [|? ? Hout Hnd']; subst.
  destruct (String.eqb_spec old name) as [->|Hne']; simpl.
  - destruct (String.eqb_spec name new); [contradiction|].
    now apply lookup_None_names.
  - destruct (String.eqb_spec old name); [contradiction | now apply IH].
Qed.

(** X3. [_config_suffix] never raises and never touches the key-mapper
    directory. When the config root holds [config] and no [config.json],
    the file is afterwards found under [config.json], every other entry is
    where it was, and (names in a directory being unique) [config] is gone;
    in every other case the disk stays as it is. Running it again changes
    nothing. *)
Theorem config_suffix_renames (s : fs) :
  exists s',
    _config_suffix s = done s' /\
    legacy s' = legacy s /\
    _config_suffix s' = done s' /\
    (exists_child "config" s = false \/ exists_child "config.json" s = true ->
     s' = s) /\
    (exists_child "config" s = true -> exists_child "config.json" s = false ->
     child "config.json" s' = child "config" s /\
     (forall name, name <> "config" -> name <> "config.json" ->
                   child name s' = child name s) /\
     (forall es, root s = Some (Dir es) -> NoDup (Listing.names es) ->
                 child "config" s' = None)).
Proof.
  unfold _config_suffix, exists_child, child.
  destruct (root s) as [[f|es]|] eqn:Hroot.
  - exists s. rewrite Hroot. repeat split; auto; discriminate.
  - unfold Listing.mem.
    destruct (Listing.lookup "config" es) as [c|] eqn:Hc;
      destruct (Listing.lookup "config.json" es) as [j|] eqn:Hj; simpl.
    + exists s. rewrite Hroot. unfold Listing.mem. rewrite Hc, Hj. simpl.
      repeat split; auto; discriminate.
    + eexists. split; [reflexivity|]. simpl. split; [reflexivity|].
      unfold Listing.mem.
      rewrite (lookup_rename_new "config" "config.json" es Hj), Hc. simpl.
      split.
      { destruct (Listing.lookup "config" (Listing.rename "config" "config.json" es));
          reflexivity. }
      split; [intros [H|H]; discriminate|].
      intros _ _. split; [reflexivity|]. split.
      * intros name H1 H2. now apply lookup_rename_other.
      * intros es0 Hes0 Hnd. injection Hes0 as <-.
        apply lookup_rename_old; [discriminate | exact Hnd].
    + exists s. rewrite Hroot. unfold Listing.mem. rewrite Hc, Hj. simpl.
      repeat split; auto; discriminate.
    + exists s. rewrite Hroot. unfold Listing.mem. rewrite Hc, Hj. simpl.
      repeat split; auto; discriminate.
  - exists s. rewrite Hroot. repeat split; auto; discriminate.
Qed.

(** X4. [_preset_path] is idempotent: once it has ended normally, running
    it again leaves the disk as it is. *)
Theorem preset_path_idempotent (s s' : fs) :
  _preset_path s = (s', None) -> _preset_path s' = (s', None).
Proof.
  unfold _preset_path.
  destruct (root s) as [[f|es]|] eqn:Hroot; intros H.
  - discriminate.
  - destruct (Listing.mem get_preset_path es) eqn:Hmem; injection H as <-.
    + now rewrite Hroot, Hmem.
    + simpl. unfold Listing.mem at 1. rewrite ListingFacts.lookup_app.
      destruct (Listing.lookup get_preset_path (Listing.others es)); simpl;
        try rewrite String.eqb_refl; reflexivity.
  - injection H as <-. now rewrite Hroot.
Qed.

Lemma preset_path_idempotent_witness :
  exists s',
    _preset_path flat_layout = (s', None) /\
    child "presets" s' = Some (Dir [("Foo Device", Dir [("p.json", legacy_preset)])]) /\
    _preset_path s' = (s', None).
Proof.
  eexists. split; [reflexivity|]. split; [reflexivity|].
  apply (preset_path_idempotent flat_layout). reflexivity.
Defined.

(** X5. [_rename_config] never raises, does nothing when [CONFIG_PATH]
    exists (so it never overwrites it), and otherwise makes the key-mapper
    directory the new [CONFIG_PATH], whole, leaving nothing at the old
    place. Running it again changes nothing. *)
Theorem rename_config_moves (s : fs) :
  exists s',
    _rename_config s = done s' /\
    _rename_config s' = done s' /\
    (root s <> None -> s' = s) /\
    (root s = None -> root s' = legacy s /\ legacy s' = None).
Proof.
  unfold _rename_config.
  destruct s as [[r|] [l|]]; simpl; eexists; (split; [reflexivity|]); simpl;
    repeat split; auto; congruence.
Qed.

(** ** More on the two loops over a mapping *)

(** X6. Whatever [_mapping_keys] leaves in a mapping comes from the mapping
    it was given: every entry of the result holds the value of an entry whose
    normalized key is its key, and the normalized form of every key of the
    given mapping is a key of the result. No key of the result has exactly
    one separator. *)
Theorem mapping_keys_provenance (d : dict) :
  Dict.wf d ->
  exists d',
    mapping_keys_loop d = OK d' /\ Dict.wf d' /\
    (forall k v, Dict.get k d' = Some v ->
       count_commas k <> 1 /\
       exists k0, Dict.get k0 d = Some v /\ normalize_key k0 = k) /\
    (forall k0, In k0 (Dict.keys d) -> In (normalize_key k0) (Dict.keys d')).
Proof.
  intros Hwf.
  destruct (mapping_keys_fold (Dict.keys d) d Hwf Hwf (fun k H _ => H))
    as (d' & Hrun & Hwf' & P1 & P3 & P2 & P4).
  exists d'. split; [exact Hrun|]. split; [exact Hwf'|]. split.
  - intros k v Hk.
    assert (Hc : count_commas k <> 1).
    { intros Hc. rewrite (P3 k Hc) in Hk; [discriminate|].
      destruct (in_dec string_dec k (Dict.keys d)) as [Hi|Ho]; [now left|].
      right. now apply DictFacts.get_None_keys. }
    split; [exact Hc|].
    destruct (existsb (fun k0 => Nat.eqb (count_commas k0) 1
                                 && String.eqb (with_value k0) k) (Dict.keys d))
      eqn:Hex.
    + apply existsb_exists in Hex. destruct Hex as (k0 & Hin & Hk0).
      apply andb_true_iff in Hk0. destruct Hk0 as [Hc0 Heq].
      apply Nat.eqb_eq in Hc0. apply String.eqb_eq in Heq.
      destruct (DictFacts.keys_get k0 d Hin) as [v0 Hv0].
      exists k0. split.
      * rewrite <- Heq, (P1 k0 v0 Hin Hc0 Hv0) in Hk. congruence.
      * unfold normalize_key. now rewrite Hc0, Nat.eqb_refl.
    + exists k. split.
      * rewrite P2 in Hk; [exact Hk | exact Hc|].
        intros k0 Hin Hc0 Heq.
        assert (Hcontra : existsb (fun k0 => Nat.eqb (count_commas k0) 1
                            && String.eqb (with_value k0) k) (Dict.keys d) = true).
        { apply existsb_exists. exists k0. split; [exact Hin|].
          rewrite Hc0, Nat.eqb_refl. simpl. now apply String.eqb_eq. }
        congruence.
      * unfold normalize_key.
        destruct (Nat.eqb_spec (count_commas k) 1); [contradiction | reflexivity].
  - intros k0 Hin. destruct (DictFacts.keys_get k0 d Hin) as [v0 Hv0].
    unfold normalize_key.
    destruct (Nat.eqb_spec (count_commas k0) 1) as [Hc|Hc].
    + apply DictFacts.get_Some_keys with (v := v0). now apply P1.
    + destruct (Dict.get k0 d') as [v'|] eqn:Hv'.
      * now apply DictFacts.get_Some_keys with (v := v').
      * exfalso. apply (P4 k0 Hc); [congruence | exact Hv'].
Qed.

Lemma mapping_keys_provenance_witness :
  exists d',
    mapping_keys_loop [("1,5", JStr "a"); ("1,6,1", JStr "b")] = OK d' /\
    In "1,5,1" (Dict.keys d') /\ In "1,6,1" (Dict.keys d').
Proof.
  destruct (mapping_keys_provenance [("1,5", JStr "a"); ("1,6,1", JStr "b")])
    as (d' & Hrun & _ & _ & Hkeys); [solve_wf|].
  exists d'. split; [exact Hrun|]. split.
  - apply (Hkeys "1,5"). simpl. auto.
  - apply (Hkeys "1,6,1"). simpl. auto.
Defined.

Lemma In_get (k : string) (v : json) (d : dict) :
  Dict.wf d -> In (k, v) d -> Dict.get k d = Some v.
Proof.
  unfold Dict.wf. induction d as [|[k0 v0] d IH]; simpl; intros Hnd; [intros []|].
  inversion Hnd as [|? ? Hout Hnd']; subst.
  intros [Heq|Hin].
  - injection Heq as -> ->. now rewrite String.eqb_refl.
  - destruct (String.eqb_spec k k0) as [->|_]; [|now apply IH].
    exfalso. apply Hout. change k0 with (fst (k0, v)). now apply in_map.
Qed.

Lemma with_target_is_list (E : env) (symbol v : json) :
  with_target E symbol = OK v -> is_list v = true.
Proof.
  unfold with_target. destruct (_find_target E symbol) as [[name|]|e]; simpl;
    intros H; try discriminate; injection H as <-; reflexivity.
Qed.

Lemma add_target_fold_lists (E : env) (es : dict) :
  forall cur d' : dict,
    NoDup (Dict.keys es) ->
    (forall k, In k (Dict.keys es) -> In k (Dict.keys cur)) ->
    fold_left (add_target_step E) es (OK cur) = OK d' ->
    forall k l, In (k, JArr l) es -> Dict.get k cur = Some (JArr l) ->
                Dict.get k d' = Some (JArr l).
Proof.
  induction es as [|[k0 s0] es IH]; intros cur d' Hnd Hsub Hrun k l Hin Hget;
    [destruct Hin|].
  simpl in Hnd. inversion Hnd as [|? ? Hk0 Hnd']; subst.
  change (fold_left (add_target_step E) ((k0, s0) :: es) (OK cur))
    with (fold_left (add_target_step E) es (add_target_step E (OK cur) (k0, s0)))
    in Hrun.
  rewrite add_target_step_eq in Hrun.
  assert (Hsub' : forall k, In k (Dict.keys es) -> In k (Dict.keys cur))
    by (intros k' Hk'; apply Hsub; now right).
  destruct Hin as [Heq|Hin].
  - injection Heq as -> ->. simpl in Hrun.
    destruct (add_target_fold E es cur d' Hnd' Hsub' Hrun) as (_ & _ & Hold).
    now rewrite (Hold k Hk0).
  - assert (Hne : k <> k0).
    { intros ->. apply Hk0. change k0 with (fst (k0, JArr l)). now apply in_map. }
    destruct (is_list s0).
    + now apply (IH cur d' Hnd' Hsub' Hrun k l).
    + destruct (with_target E s0) as [v0|e]; simpl in Hrun;
        [|rewrite add_target_step_Raise in Hrun; discriminate].
      assert (Hk0cur : In k0 (Dict.keys cur)) by (apply Hsub; now left).
      apply (IH (Dict.set k0 v0 cur) d' Hnd'); [|exact Hrun | exact Hin|].
      * intros k' Hk'. rewrite keys_set_present by exact Hk0cur. now apply Hsub'.
      * rewrite DictFacts.get_set.
        destruct (String.eqb_spec k k0); [contradiction | exact Hget].
Qed.

Lemma add_target_fold_fixed (E : env) (es : dict) (cur : dict) :
  (forall k v, In (k, v) es -> is_list v = true) ->
  fold_left (add_target_step E) es (OK cur) = OK cur.
Proof.
  induction es as [|[k0 s0] es IH]; intros H; [reflexivity|].
  change (fold_left (add_target_step E) ((k0, s0) :: es) (OK cur))
    with (fold_left (add_target_step E) es (add_target_step E (OK cur) (k0, s0))).
  rewrite add_target_step_eq, (H k0 s0 (or_introl eq_refl)).
  apply IH. intros k v Hin. apply (H k v). now right.
Qed.

Lemma add_target_loop_facts (E : env) (d d' : dict) :
  Dict.wf d ->
  add_target_loop E d = OK d' ->
  Dict.keys d' = Dict.keys d /\
  (forall k v, Dict.get k d' = Some v -> is_list v = true) /\
  (forall k l, Dict.get k d = Some (JArr l) -> Dict.get k d' = Some (JArr l)) /\
  add_target_loop E d' = OK d'.
Proof.
  intros Hwf Hrun.
  destruct (add_target_fold E d d d' Hwf (fun _ H => H) Hrun) as (Hkeys & Hnew & _).
  assert (Hlists : forall k l, Dict.get k d = Some (JArr l) ->
                               Dict.get k d' = Some (JArr l)).
  { intros k l Hget.
    apply (add_target_fold_lists E d d d' Hwf (fun _ H => H) Hrun k l);
      [now apply get_In | exact Hget]. }
  assert (Hall : forall k v, Dict.get k d' = Some v -> is_list v = true).
  { intros k v Hget.
    assert (Hin : In k (Dict.keys d))
      by (rewrite <- Hkeys; now apply DictFacts.get_Some_keys with (v := v)).
    destruct (DictFacts.keys_get k d Hin) as [s0 Hs0].
    destruct (is_list s0) eqn:Hs.
    - destruct s0; try discriminate. rewrite (Hlists _ _ Hs0) in Hget.
      injection Hget as <-. reflexivity.
    - destruct (Hnew k s0 (get_In k s0 d Hs0) Hs) as (v' & Hv' & Hget').
      rewrite Hget' in Hget. injection Hget as <-.
      now apply with_target_is_list in Hv'. }
  split; [exact Hkeys|]. split; [exact Hall|]. split; [exact Hlists|].
  unfold add_target_loop. apply add_target_fold_fixed.
  intros k v Hin. apply (Hall k). apply In_get; [|exact Hin].
  unfold Dict.wf. rewrite Hkeys. exact Hwf.
Qed.

(** X7. When the loop of [_add_target] over a mapping ends normally, the
    mapping has the same keys in the same order, every value is a list (a
    bare symbol has become a pair, so no bare symbol is left), a value that
    was a list already is untouched, and running the loop on the result
    gives the result again. *)
Theorem add_target_loop_pairs (E : env) (d d' : dict) :
  Dict.wf d ->
  add_target_loop E d = OK d' ->
  Dict.keys d' = Dict.keys d /\
  (forall k v, Dict.get k d' = Some v -> is_list v = true) /\
  (forall k l, Dict.get k d = Some (JArr l) -> Dict.get k d' = Some (JArr l)) /\
  add_target_loop E d' = OK d'.
Proof. exact (add_target_loop_facts E d d'). Qed.

Lemma add_target_loop_pairs_witness :
  exists d',
    add_target_loop Sample.e
      [("1,30,1", JStr "a"); ("1,31,1", JArr [JStr "b"; JStr "keyboard"])] = OK d' /\
    Dict.get "1,31,1" d' = Some (JArr [JStr "b"; JStr "keyboard"]) /\
    add_target_loop Sample.e d' = OK d'.
Proof.
  eexists. split; [reflexivity|].
  destruct (add_target_loop_pairs Sample.e
              [("1,30,1", JStr "a"); ("1,31,1", JArr [JStr "b"; JStr "keyboard"])]
              _ ltac:(solve_wf) eq_refl) as (_ & _ & Hlists & Hidem).
  split; [apply Hlists; reflexivity | exact Hidem].
Defined.

(** ** What [_find_target] can return *)

Lemma first_capable_Some_inv (required : list (option Z))
    (devs : list (string * list Z)) (name : string) :
  first_capable required devs = Some name ->
  exists before keys after,
    devs = (before ++ (name, keys) :: after)%list /\
    issubset required keys = true /\
    forall d, In d before -> issubset required (snd d) = false.
Proof.
  induction devs as [|[n ks] devs IH]; simpl; [discriminate|].
  destruct (issubset required ks) eqn:Hs.
  - intros H. injection H as ->. exists [], ks, devs.
    split; [reflexivity|]. split; [exact Hs | intros d []].
  - intros H. destruct (IH H) as (before & keys & after & Hdevs & Hkeys & Hbefore).
    exists ((n, ks) :: before), keys, after. split; [simpl; now rewrite Hdevs|].
    split; [exact Hkeys|]. intros d [<-|Hd]; [exact Hs | now apply Hbefore].
Qed.

Lemma first_capable_None_inv (required : list (option Z))
    (devs : list (string * list Z)) :
  first_capable required devs = None ->
  forall d, In d devs -> issubset required (snd d) = false.
Proof.
  induction devs as [|[n ks] devs IH]; simpl; [intros _ d []|].
  destruct (issubset required ks) eqn:Hs; [discriminate|].
  intros H d [<-|Hd]; [exact Hs | now apply IH].
Qed.

(** X8. [_find_target] gives nothing but what its rules allow. A name it
    returns is "mouse", for a symbol with a relative-motion code, or the
    name of a registered device whose key codes include every required
    code, no device registered before it doing so. It returns [None] only
    for a symbol without relative-motion code that no registered device can
    emit. *)
Theorem find_target_sound (E : env) (symbol : json) (target : option string) :
  _find_target E symbol = OK target ->
  exists caps,
    required_capabilities E symbol = OK caps /\
    match target with
    | Some name =>
        (ev_rel caps <> [] /\ name = "mouse") \/
        (ev_rel caps = [] /\
         exists before keys after,
           devices E = (before ++ (name, keys) :: after)%list /\
           (forall c, In c (ev_key caps) -> exists z, c = Some z /\ In z keys) /\
           forall d, In d before -> issubset (ev_key caps) (snd d) = false)
    | None =>
        ev_rel caps = [] /\
        forall d, In d (devices E) -> issubset (ev_key caps) (snd d) = false
    end.
Proof.
  unfold _find_target.
  destruct (required_capabilities E symbol) as [caps|e]; simpl; [|discriminate].
  intros H. exists caps. split; [reflexivity|].
  destruct (ev_rel caps) as [|r rs] eqn:Hrel; simpl in H; injection H as <-.
  - destruct (first_capable (ev_key caps) (devices E)) as [name|] eqn:Hfirst.
    + right. split; [reflexivity|].
      destruct (first_capable_Some_inv _ _ _ Hfirst)
        as (before & keys & after & Hdevs & Hkeys & Hbefore).
      exists before, keys, after. split; [exact Hdevs|].
      split; [now apply issubset_spec | exact Hbefore].
    + split; [reflexivity | now apply first_capable_None_inv].
  - left. split; [discriminate | reflexivity].
Qed.

Lemma find_target_sound_witness :
  exists caps,
    required_capabilities Sample.e (JStr "BTN_A") = OK caps /\
    ((ev_rel caps <> [] /\ "gamepad" = "mouse") \/
     (ev_rel caps = [] /\
      exists before keys after,
        devices Sample.e = (before ++ ("gamepad", keys) :: after)%list /\
        (forall c, In c (ev_key caps) -> exists z, c = Some z /\ In z keys) /\
        forall d, In d before -> issubset (ev_key caps) (snd d) = false)).
Proof.
  exact (find_target_sound Sample.e (JStr "BTN_A") (Some "gamepad") eq_refl).
Defined.

(** X9. A symbol that is no macro and for which [system_mapping.get] has no
    code requires the set that holds only Python's [None]; no device has
    that among its codes, so whatever is registered the symbol is stored
    followed by a newline, the line [# Broken mapping:], a newline and the
    line [# No target can handle all specified keycodes], with the target
    "keyboard". *)
Theorem unknown_symbol_is_broken (E : env) (symbol : json) :
  is_this_a_macro E symbol = false ->
  system_mapping_get E symbol = OK None ->
  _find_target E symbol = OK None /\
  with_target E symbol =
    OK (JArr [JStr (match symbol with
                    | JStr s => s
                    | _ => py_str E symbol
                    end
                    ++ String (ascii_of_nat 10)
                      ("# Broken mapping:"
                       ++ String (ascii_of_nat 10)
                            "# No target can handle all specified keycodes"));
              JStr "keyboard"]).
Proof.
  intros Hmacro Hget.
  assert (Hfind : _find_target E symbol = OK None).
  { unfold _find_target, required_capabilities. rewrite Hmacro, Hget. simpl.
    f_equal. apply first_capable_none. intros d _. reflexivity. }
  split; [exact Hfind|]. unfold with_target. rewrite Hfind.
  destruct symbol; reflexivity.
Qed.

Lemma unknown_symbol_is_broken_witness :
  with_target Sample.e (JStr "nope") =
    OK (JArr [JStr ("nope"
                    ++ String (ascii_of_nat 10)
                      ("# Broken mapping:"
                       ++ String (ascii_of_nat 10)
                            "# No target can handle all specified keycodes"));
              JStr "keyboard"]).
Proof.
  apply (unknown_symbol_is_broken Sample.e (JStr "nope")); reflexivity.
Defined.

(** ** [migrate] as a whole *)

Lemma gate_noop (E : env) (v : version E) (t : string) (step : fs -> outcome) (s : fs) :
  (exists tv, parse_version E t = OK tv) -> step s = done s ->
  gate E v t step s = done s.
Proof.
  intros [tv Hp] Hstep. unfold gate. rewrite Hp.
  destruct (version_lt E v tv); [exact Hstep | reflexivity].
Qed.

(** X10. On a machine that has neither [CONFIG_PATH] nor the key-mapper
    directory, [migrate] ends normally and creates nothing, whatever the
    order on versions says, as long as the version strings it compares
    parse. *)
Theorem migrate_fresh_install (E : env) :
  (forall t, In t ["0.0.0"; "0.4.0"; "1.2.2"; "1.3.0"; "1.4.0"; VERSION E] ->
             exists tv, parse_version E t = OK tv) ->
  migrate E {| root := None; legacy := None |} = done {| root := None; legacy := None |}.
Proof.
  intros Hparse.
  destruct (Hparse "0.0.0") as [zero Hzero]; [simpl; auto|].
  unfold migrate, config_version. simpl. rewrite Hzero.
  rewrite !and_then_done
    by (apply gate_noop; [apply Hparse; simpl; auto 7 | reflexivity]).
  apply gate_noop; [apply Hparse; simpl; auto 7 | reflexivity].
Qed.

Lemma migrate_fresh_install_witness :
  migrate Sample.e {| root := None; legacy := None |}
  = done {| root := None; legacy := None |}.
Proof.
  apply (migrate_fresh_install Sample.e).
  intros t Ht. simpl in Ht.
  destruct Ht as [<-|[<-|[<-|[<-|[<-|[<-|[]]]]]]]; eexists; reflexivity.
Defined.

(** X11. Write, then read: when [_update_version] ends normally on a disk
    that has a config.json, [config_version] afterwards gives what
    [parse_version] makes of [VERSION]. *)
Theorem version_round_trip (E : env) (s s1 : fs) :
  exists_child "config.json" s = true ->
  _update_version E s = (s1, None) ->
  config_version E s1 = parse_version E (VERSION E).
Proof.
  intros Hex Hrun. apply (config_version_after_update E s s1 Hrun).
  unfold _update_version in Hrun. unfold exists_child in *.
  destruct (child "config.json" s) as [[f|es]|] eqn:Hchild; try discriminate.
  destruct (parsed f) as [[| | | | |config]|]; try discriminate.
  injection Hrun as <-.
  now rewrite child_set_child, String.eqb_refl, Hchild.
Qed.

Lemma version_round_trip_witness :
  exists s1,
    _update_version Sample.e old_config = (s1, None) /\
    config_version Sample.e s1 = OK [1; 4; 0].
Proof.
  eexists. split; [reflexivity|].
  apply (version_round_trip Sample.e old_config); reflexivity.
Defined.

Lemma set_child_keeps (name : string) (n : node) (s : fs) :
  legacy (set_child name n s) = legacy s /\
  (root s <> None -> root (set_child name n s) <> None).
Proof.
  unfold set_child. destruct (root s) as [[f|es]|] eqn:Hr; simpl; try rewrite Hr;
    split; auto; intros _; discriminate.
Qed.

Lemma and_then_keeps (first second : fs -> outcome) :
  keeps_legacy first -> keeps_legacy second -> keeps_legacy (and_then first second).
Proof.
  intros Hf Hs s s' r Hroot. unfold and_then.
  destruct (first s) as [s1 [e|]] eqn:H1; intros H.
  - injection H as <- <-. now apply (Hf s s1 (Some e)).
  - destruct (Hf s s1 None Hroot H1) as [Hl Hr].
    destruct (Hs s1 s' r Hr H) as [Hl' Hr']. split; [congruence | exact Hr'].
Qed.

Lemma gate_keeps (E : env) (v : version E) (t : string) (step : fs -> outcome) :
  keeps_legacy step -> keeps_legacy (gate E v t step).
Proof.
  intros Hstep s s' r Hroot. unfold gate.
  destruct (parse_version E t) as [tv|e].
  - destruct (version_lt E v tv); [now apply Hstep|].
    intros H. injection H as <- <-. now split.
  - intros H. injection H as <- <-. now split.
Qed.

Lemma config_suffix_keeps : keeps_legacy _config_suffix.
Proof.
  intros s s' r Hroot. unfold _config_suffix.
  destruct (root s) as [[f|es]|] eqn:Hr; try contradiction.
  - intros H. injection H as <- <-. rewrite Hr. split; [reflexivity | discriminate].
  - destruct (Listing.mem "config" es && negb (Listing.mem "config.json" es));
      intros H; injection H as <- <-; simpl; try rewrite Hr;
      split; try reflexivity; discriminate.
Qed.

Lemma preset_path_keeps : keeps_legacy _preset_path.
Proof.
  intros s s' r Hroot. unfold _preset_path.
  destruct (root s) as [[f|es]|] eqn:Hr; try contradiction.
  - intros H. injection H as <- <-. rewrite Hr. split; [reflexivity | discriminate].
  - destruct (Listing.mem get_preset_path es);
      intros H; injection H as <- <-; simpl; try rewrite Hr;
      split; try reflexivity; discriminate.
Qed.

Lemma rename_config_keeps : keeps_legacy _rename_config.
Proof.
  intros s s' r Hroot. unfold _rename_config.
  destruct (root s) as [n|] eqn:Hr; [|contradiction].
  intros H. injection H as <- <-. rewrite Hr. split; [reflexivity | discriminate].
Qed.

Lemma for_all_presets_keeps (body : node -> result node) :
  keeps_legacy (for_all_presets body).
Proof.
  intros s s' r Hroot. unfold for_all_presets.
  destruct (child get_preset_path s) as [[f|gs]|].
  - intros H. injection H as <- <-. now split.
  - destruct (for_each_folder body gs) as [gs1 r1].
    intros H. injection H as <- <-.
    destruct (set_child_keeps get_preset_path (Dir gs1) s) as [Hl Hr]. auto.
  - intros H. injection H as <- <-. now split.
Qed.

Lemma update_version_keeps (E : env) : keeps_legacy (_update_version E).
Proof.
  intros s s' r Hroot. unfold _update_version.
  destruct (child "config.json" s) as [[f|es]|].
  - destruct (parsed f) as [[| | | | |config]|];
      intros H; injection H as <- <-; try (now split).
    destruct (set_child_keeps "config.json"
                (File (write_json (JObj (Dict.set "version" (JStr (VERSION E)) config))
                         false)) s) as [Hl Hr]. auto.
  - intros H. injection H as <- <-. now split.
  - intros H. injection H as <- <-. now split.
Qed.

(** X12. On a disk that has [CONFIG_PATH], [migrate] never moves, changes or
    removes the key-mapper directory, and never removes [CONFIG_PATH],
    however it ends. *)
Theorem migrate_keeps_legacy (E : env) (s s' : fs) (r : option exn) :
  root s <> None ->
  migrate E s = (s', r) ->
  legacy s' = legacy s /\ root s' <> None.
Proof.
  intros Hroot. unfold migrate.
  destruct (config_version E s) as [v|e].
  - apply (and_then_keeps _ _
             (gate_keeps E v _ _ (and_then_keeps _ _ config_suffix_keeps preset_path_keeps))
             (and_then_keeps _ _
                (gate_keeps E v _ _ (for_all_presets_keeps mapping_keys_preset))
                (and_then_keeps _ _
                   (gate_keeps E v _ _ rename_config_keeps)
                   (and_then_keeps _ _
                      (gate_keeps E v _ _ (for_all_presets_keeps (add_target_preset E)))
                      (gate_keeps E v _ _ (update_version_keeps E)))))).
    exact Hroot.
  - intros H. injection H as <- <-. now split.
Qed.

Lemma migrate_keeps_legacy_witness :
  exists s',
    migrate Sample.e {| root := root flat_layout; legacy := root flat_layout |}
      = (s', None) /\
    legacy s' = root flat_layout.
Proof.
  eexists. split; [reflexivity|].
  apply (migrate_keeps_legacy Sample.e
           {| root := root flat_layout; legacy := root flat_layout |} _ None);
    [discriminate | reflexivity].
Defined.

(** ** Running a step again *)

Lemma set_set_same (k : string) (v : json) (d : dict) :
  Dict.set k v (Dict.set k v d) = Dict.set k v d.
Proof.
  induction d as [|[k0 v0] d IH]; simpl.
  - now rewrite String.eqb_refl.
  - destruct (String.eqb_spec k k0) as [->|Hne]; simpl.
    + now rewrite String.eqb_refl.
    + destruct (String.eqb_spec k k0); [contradiction | now rewrite IH].
Qed.

Lemma mapping_keys_loop_stable (d d' : dict) :
  Dict.wf d -> mapping_keys_loop d = OK d' -> mapping_keys_loop d' = OK d'.
Proof.
  intros Hwf Hrun.
  destruct (mapping_keys_fold (Dict.keys d) d Hwf Hwf (fun k H _ => H))
    as (d1 & Hrun1 & _ & _ & P3 & _ & _).
  unfold mapping_keys_loop in Hrun. rewrite Hrun1 in Hrun. injection Hrun as <-.
  unfold mapping_keys_loop. apply mapping_keys_fold_fixed.
  intros k Hin Hc. apply DictFacts.keys_get in Hin. destruct Hin as [v Hv].
  rewrite (P3 k Hc) in Hv; [discriminate|].
  destruct (in_dec string_dec k (Dict.keys d)) as [Hi|Ho]; [now left|].
  right. now apply DictFacts.get_None_keys.
Qed.

Lemma update_update_same (name : string) (n : node) (es : Listing.t) :
  Listing.update name n (Listing.update name n es) = Listing.update name n es.
Proof.
  induction es as [|[name0 n0] es IH]; simpl; [reflexivity|].
  destruct (String.eqb_spec name name0) as [->|Hne]; simpl.
  - now rewrite String.eqb_refl.
  - destruct (String.eqb_spec name name0); [contradiction | now rewrite IH].
Qed.

Lemma set_child_twice (name : string) (n : node) (s : fs) :
  set_child name n (set_child name n s) = set_child name n s.
Proof.
  unfold set_child. destruct (root s) as [[f|es]|] eqn:Hr; simpl; try rewrite Hr;
    try reflexivity.
  now rewrite update_update_same.
Qed.

(** One preset file, gone through once more. *)
Lemma preset_body_stable (E : env) (body : node -> result node) (n n1 : node) :
  body = mapping_keys_preset \/ body = add_target_preset E ->
  wf_preset n ->
  body n = OK n1 ->
  body n1 = OK n1.
Proof.
  intros Hbody Hwf Hrun.
  destruct n as [f|es]; [|destruct Hbody as [-> | ->]; discriminate].
  simpl in Hwf.
  destruct (parsed f) as [[| | | | |pd]|e] eqn:Hparsed;
    try (destruct Hbody as [-> | ->]; simpl in Hrun; rewrite Hparsed in Hrun;
         try discriminate; destruct e; try discriminate;
         injection Hrun as <-; simpl; now rewrite Hparsed).
  destruct Hbody as [-> | ->]; simpl in Hrun; rewrite Hparsed in Hrun.
  - (* _mapping_keys *)
    destruct (Dict.get "mapping" pd) as [[| | | | |m]|] eqn:Hm;
      simpl in Hrun; try discriminate.
    + destruct (mapping_keys_loop m) as [m'|e] eqn:Hloop; simpl in Hrun;
        [|discriminate].
      injection Hrun as <-. simpl.
      rewrite DictFacts.get_set, String.eqb_refl.
      rewrite (mapping_keys_loop_stable m m' Hwf Hloop). simpl.
      now rewrite set_set_same.
    + injection Hrun as <-. simpl. now rewrite Hm.
  - (* _add_target *)
    destruct (Dict.get "mapping" pd) as [[| | | | |m]|] eqn:Hm;
      simpl in Hrun; try discriminate.
    + destruct (add_target_loop E m) as [m'|e] eqn:Hloop; simpl in Hrun;
        [|discriminate].
      injection Hrun as <-. simpl.
      rewrite DictFacts.get_set, String.eqb_refl.
      destruct (add_target_loop_facts E m m' Hwf Hloop) as (_ & _ & _ & Hidem).
      rewrite Hidem. simpl. now rewrite set_set_same.
    + injection Hrun as <-. simpl. now rewrite Hparsed, Hm.
Qed.

Lemma for_each_preset_twice (body : node -> result node) (es : Listing.t) :
  forall es',
    (forall name n n1, In (name, n) es -> body n = OK n1 -> body n1 = OK n1) ->
    for_each_preset body es = (es', None) ->
    for_each_preset body es' = (es', None).
Proof.
  induction es as [|[name n] es IH]; intros es' Hstable H; simpl in H.
  - injection H as <-. reflexivity.
  - assert (Hrest : forall name n n1, In (name, n) es -> body n = OK n1 ->
                                      body n1 = OK n1)
      by (intros name0 n0 n1 Hin; apply (Hstable name0 n0 n1); now right).
    destruct (has_json_suffix name) eqn:Hs.
    + destruct (body n) as [n1|e] eqn:Hb; [|discriminate].
      destruct (for_each_preset body es) as [es1 [e|]] eqn:Hrec; [discriminate|].
      injection H as <-. simpl.
      rewrite Hs, (Hstable name n n1 (or_introl eq_refl) Hb).
      now rewrite (IH es1 Hrest eq_refl).
    + destruct (for_each_preset body es) as [es1 [e|]] eqn:Hrec; [discriminate|].
      injection H as <-. simpl. rewrite Hs. now rewrite (IH es1 Hrest eq_refl).
Qed.

Lemma for_each_folder_twice (body : node -> result node) (gs : Listing.t) :
  forall gs',
    (forall g es name n n1, In (g, Dir es) gs -> In (name, n) es ->
                            body n = OK n1 -> body n1 = OK n1) ->
    for_each_folder body gs = (gs', None) ->
    for_each_folder body gs' = (gs', None).
Proof.
  induction gs as [|[g [f|es]] gs IH]; intros gs' Hstable H; simpl in H.
  - injection H as <-. reflexivity.
  - destruct (for_each_folder body gs) as [gs1 [e|]] eqn:Hrec; [discriminate|].
    injection H as <-. simpl. rewrite (IH gs1); [reflexivity | | reflexivity].
    intros g0 es0 name n n1 Hin. apply (Hstable g0 es0). now right.
  - destruct (for_each_preset body es) as [es1 [e|]] eqn:Hes; [discriminate|].
    destruct (for_each_folder body gs) as [gs1 [e|]] eqn:Hrec; [discriminate|].
    injection H as <-. simpl.
    rewrite (for_each_preset_twice body es es1); [| |exact Hes].
    + rewrite (IH gs1); [reflexivity | | reflexivity].
      intros g0 es0 name n n1 Hin. apply (Hstable g0 es0). now right.
    + intros name n n1. apply (Hstable g es). now left.
Qed.

(** X13. [_mapping_keys] and [_add_target] can be run again: on a disk
    whose presets hold mappings without repeated keys (as every parsed JSON
    object does), when the step has ended normally, a second run of the
    same step ends normally and leaves every file and directory as the
    first run left it. This is what makes the restart after a crash in the
    middle of a step harmless. *)
Theorem step_twice_is_once (E : env) (body : node -> result node) (s s1 : fs) :
  body = mapping_keys_preset \/ body = add_target_preset E ->
  (forall gs g es name n,
     child get_preset_path s = Some (Dir gs) ->
     In (g, Dir es) gs -> In (name, n) es -> wf_preset n) ->
  for_all_presets body s = (s1, None) ->
  for_all_presets body s1 = (s1, None).
Proof.
  intros Hbody Hwf. unfold for_all_presets.
  destruct (child get_preset_path s) as [[f|gs]|] eqn:Hchild; intros H.
  - discriminate.
  - destruct (for_each_folder body gs) as [gs1 r1] eqn:Hwalk.
    injection H as <- ->.
    rewrite child_set_child, String.eqb_refl, Hchild.
    rewrite (for_each_folder_twice body gs gs1); [| |exact Hwalk].
    + now rewrite set_child_twice.
    + intros g es name n n1 Hg Hn.
      apply (preset_body_stable E body n n1 Hbody).
      now apply (Hwf gs g es name n).
  - injection H as <-. now rewrite Hchild.
Qed.

Lemma step_twice_is_once_witness :
  exists s1,
    _add_target Sample.e with_corrupt_preset = (s1, None) /\
    _add_target Sample.e s1 = (s1, None).
Proof.
  eexists. split; [reflexivity|].
  apply (step_twice_is_once Sample.e (add_target_preset Sample.e) with_corrupt_preset);
    [now right | | reflexivity].
  intros gs g es name n Hgs Hg Hn.
  injection Hgs as <-.
  destruct Hg as [Hg|[]]. injection Hg as <- <-.
  destruct Hn as [Hn|[Hn|[]]]; injection Hn as <- <-; simpl; [exact I | solve_wf].
Defined.

(** X14. What the two steps do to one preset that holds a JSON object: the
    object written has the same keys in the same order and the same value
    under every key other than [mapping]; the file is either left as it is
    or holds the pretty-printed object followed by a newline. *)
Theorem preset_rewrite_frame (E : env) (body : node -> result node)
    (f : file) (preset_dict : dict) (n1 : node) :
  body = mapping_keys_preset \/ body = add_target_preset E ->
  parsed f = OK (JObj preset_dict) ->
  body (File f) = OK n1 ->
  exists f1 preset_dict1,
    n1 = File f1 /\ parsed f1 = OK (JObj preset_dict1) /\
    Dict.keys preset_dict1 = Dict.keys preset_dict /\
    (forall k, k <> "mapping" -> Dict.get k preset_dict1 = Dict.get k preset_dict) /\
    (f1 = f \/ text f1 = json_dumps (JObj preset_dict1) ++ LF).
Proof.
  intros Hbody Hparsed Hrun.
  assert (Hset : forall m',
            Dict.get "mapping" preset_dict <> None ->
            Dict.keys (Dict.set "mapping" (JObj m') preset_dict) = Dict.keys preset_dict /\
            forall k, k <> "mapping" ->
              Dict.get k (Dict.set "mapping" (JObj m') preset_dict) = Dict.get k preset_dict).
  { intros m' Hm. split.
    - apply keys_set_present.
      destruct (Dict.get "mapping" preset_dict) as [v|] eqn:Hv; [|contradiction].
      now apply DictFacts.get_Some_keys with (v := v).
    - intros k Hk. rewrite DictFacts.get_set.
      destruct (String.eqb_spec k "mapping"); [contradiction | reflexivity]. }
  destruct Hbody as [-> | ->]; simpl in Hrun; rewrite Hparsed in Hrun.
  - destruct (Dict.get "mapping" preset_dict) as [[| | | | |m]|] eqn:Hm;
      simpl in Hrun; try discriminate.
    + destruct (mapping_keys_loop m) as [m'|e]; simpl in Hrun; [|discriminate].
      injection Hrun as <-. destruct (Hset m') as [Hk Hg]; [discriminate|].
      eexists. eexists. split; [reflexivity|]. split; [reflexivity|].
      split; [exact Hk|]. split; [exact Hg | right; reflexivity].
    + injection Hrun as <-.
      eexists. eexists. split; [reflexivity|]. split; [reflexivity|].
      split; [reflexivity|]. split; [reflexivity | right; reflexivity].
  - destruct (Dict.get "mapping" preset_dict) as [[| | | | |m]|] eqn:Hm;
      simpl in Hrun; try discriminate.
    + destruct (add_target_loop E m) as [m'|e]; simpl in Hrun; [|discriminate].
      injection Hrun as <-. destruct (Hset m') as [Hk Hg]; [discriminate|].
      eexists. eexists. split; [reflexivity|]. split; [reflexivity|].
      split; [exact Hk|]. split; [exact Hg | right; reflexivity].
    + injection Hrun as <-.
      exists f, preset_dict. split; [reflexivity|]. split; [exact Hparsed|].
      split; [reflexivity|]. split; [reflexivity | left; reflexivity].
Qed.

Lemma preset_rewrite_frame_witness :
  exists f1 preset_dict1,
    mapping_keys_preset
      (File (write_json (JObj [("name", JStr "x");
                               ("mapping", JObj [("1,5", JStr "a")])]) false))
      = OK (File f1) /\
    parsed f1 = OK (JObj preset_dict1) /\
    Dict.get "name" preset_dict1 = Some (JStr "x").
Proof.
  destruct (preset_rewrite_frame Sample.e mapping_keys_preset
              (write_json (JObj [("name", JStr "x");
                                 ("mapping", JObj [("1,5", JStr "a")])]) false)
              [("name", JStr "x"); ("mapping", JObj [("1,5", JStr "a")])]
              _ (or_introl eq_refl) eq_refl eq_refl)
    as (f1 & pd1 & Hn & Hp & _ & Hframe & _).
  exists f1, pd1. split; [rewrite <- Hn; reflexivity|]. split; [exact Hp|].
  rewrite Hframe; [reflexivity | discriminate].
Defined.

(** ** Which files are presets *)

Lemma substring_all (s : string) : substring 0 (String.length s) s = s.
Proof. induction s as [|c s IH]; simpl; [reflexivity | now rewrite IH]. Qed.

Lemma substring_skip (a b : string) (m : nat) :
  substring (String.length a) m (a ++ b) = substring 0 m b.
Proof. induction a as [|c a IH]; simpl; [reflexivity | exact IH]. Qed.

Lemma split_at (s : string) :
  forall n, n <= String.length s ->
    exists a, String.length a = n /\
              s = a ++ substring n (String.length s - n) s.
Proof.
  induction s as [|c s IH]; intros n Hn.
  - simpl in Hn. assert (n = 0) by lia. subst n. exists EmptyString. now split.
  - destruct n as [|n].
    + exists EmptyString. split; [reflexivity|].
      rewrite Nat.sub_0_r, substring_all. reflexivity.
    + simpl in Hn. destruct (IH n) as (a & Ha & Hs); [lia|].
      exists (String c a). split; [simpl; now rewrite Ha|].
      simpl. now rewrite <- Hs.
Qed.

Lemma has_json_suffix_spec (name : string) :
  has_json_suffix name = true <->
  exists stem, stem <> EmptyString /\ name = stem ++ ".json".
Proof.
  unfold has_json_suffix. rewrite andb_true_iff, Nat.ltb_lt, String.eqb_eq. split.
  - intros [Hlen Hsub].
    destruct (split_at name (String.length name - 5)) as (a & Ha & Hs); [lia|].
    replace (String.length name - (String.length name - 5)) with 5 in Hs by lia.
    rewrite Hsub in Hs. exists a. split; [|exact Hs].
    intros ->. simpl in Ha. lia.
  - intros (stem & Hstem & ->). rewrite length_append. simpl. split.
    + destruct stem; [contradiction | simpl; lia].
    + replace (String.length stem + 5 - 5) with (String.length stem) by lia.
      now rewrite substring_skip.
Qed.

(** X15. [all_presets] raises when the presets directory is missing or is
    no directory. Otherwise it lists a path exactly when the path is an
    entry, named [stem.json] with a stem that is not empty, of a directory
    that lies directly under the presets directory: files directly under
    the presets directory, a file named just [.json], and other suffixes
    are not presets. *)
Theorem all_presets_lists (s : fs) :
  (forall gs, child get_preset_path s <> Some (Dir gs)) /\ all_presets s = Raise OSError
  \/
  exists gs l,
    child get_preset_path s = Some (Dir gs) /\ all_presets s = OK l /\
    forall folder name,
      In (folder, name) l <->
      exists es n stem,
        In (folder, Dir es) gs /\ In (name, n) es /\
        stem <> EmptyString /\ name = stem ++ ".json".
Proof.
  unfold all_presets.
  destruct (child get_preset_path s) as [[f|gs]|]; [left | right | left];
    try (split; [intros gs; discriminate | reflexivity]).
  exists gs, (all_presets_in gs). split; [reflexivity|]. split; [reflexivity|].
  intros folder name. unfold all_presets_in. rewrite in_flat_map. split.
  - intros ([g [f|es]] & Hg & Hin); simpl in Hin; [destruct Hin|].
    unfold presets_of_folder in Hin. apply in_map_iff in Hin.
    destruct Hin as ([name' n] & Heq & Hin). simpl in Heq. injection Heq as <- <-.
    apply filter_In in Hin. destruct Hin as [Hin Hs]. simpl in Hs.
    apply has_json_suffix_spec in Hs. destruct Hs as (stem & Hstem & Hname).
    exists es, n, stem. auto.
  - intros (es & n & stem & Hg & Hn & Hstem & Hname).
    exists (folder, Dir es). split; [exact Hg|]. simpl.
    unfold presets_of_folder. apply in_map_iff. exists (name, n). split; [reflexivity|].
    apply filter_In. split; [exact Hn|]. simpl.
    apply has_json_suffix_spec. now exists stem.
Qed.

(** X16. Stamping is idempotent: when [_update_version] has ended normally,
    running it again ends normally and leaves the disk, the text of the
    config file included, as the first run left it. *)
Theorem update_version_idempotent (E : env) (s s1 : fs) :
  _update_version E s = (s1, None) ->
  _update_version E s1 = (s1, None).
Proof.
  unfold _update_version.
  destruct (child "config.json" s) as [[f|es]|] eqn:Hchild; intros H.
  - destruct (parsed f) as [[| | | | |config]|]; try discriminate.
    injection H as <-.
    rewrite child_set_child, String.eqb_refl, Hchild. simpl.
    now rewrite set_set_same, set_child_twice.
  - discriminate.
  - injection H as <-. now rewrite Hchild.
Qed.

Lemma update_version_idempotent_witness :
  exists s1,
    _update_version Sample.e old_config = (s1, None) /\
    _update_version Sample.e s1 = (s1, None).
Proof.
  eexists. split; [reflexivity|].
  apply (update_version_idempotent Sample.e old_config). reflexivity.
Defined.
